(** * Song catalogue backend: purchase flow, payment gateways, playlist
      aggregates and shuffle

    A shallow embedding of the business logic of
    [song_app/payment_gateways.py], [song_app/views.py],
    [playlist_app/models.py], [playlist_app/views.py] and the two
    serializers, followed by the properties the specification states
    about them.

    Conventions of the embedding:
    - a Python [Decimal] is a finite decimal number, an integer coefficient
      times a power of ten; arithmetic follows the default context
      (28 significant digits, round-half-even);
    - [float(d)] is kept as the decimal it was converted from;
    - the relational store is a record passed through the views; every view
      returns its response together with the store it leaves behind;
    - what the interpreter or the random generator decides (the identity of
      a temporary object, the draws of [random.shuffle]) is an explicit
      argument. *)

From Stdlib Require Import ZArith QArith Qpower Lia Ascii.
From stdpp Require Import gmap strings list fin_maps pretty.

Local Open Scope Z_scope.

(** ** Python's [decimal] numbers *)

(** A finite [Decimal]: the number [coef * 10 ^ exp].  The sign is carried by
    the coefficient.  Infinities and NaN are no currency amounts and are not
    part of the model, and neither are the exponent limits of the context. *)
Record Decimal : Type := Dec { coef : Z; exp : Z }.

(** The rational number a decimal denotes. *)
Definition dec_value (d : Decimal) : Q :=
  (inject_Z (coef d) * Qpower (inject_Z 10) (exp d))%Q.

(** [getcontext().prec] of the default context. *)
Definition prec : Z := 28.

(** Number of decimal digits of a positive integer ([len(self._int)]). *)
Fixpoint ndigits_fuel (fuel : nat) (n : Z) : Z :=
  match fuel with
  | O => 1
  | S fuel' => if n <? 10 then 1 else 1 + ndigits_fuel fuel' (n / 10)
  end.

Definition ndigits (n : Z) : Z :=
  ndigits_fuel (Z.to_nat (Z.log2 (Z.abs n))) (Z.abs n).

(** [ROUND_HALF_EVEN] of [n / 10 ^ d], applied to the magnitude. *)
Definition round_half_even (n d : Z) : Z :=
  let m := Z.abs n in
  let q := m / 10 ^ d in
  let r := m mod 10 ^ d in
  let up :=
    match Z.compare (2 * r) (10 ^ d) with
    | Gt => true
    | Eq => Z.odd q
    | Lt => false
    end in
  Z.sgn n * (if up then q + 1 else q).

(** [Decimal._fix]: round a result that has more than [prec] digits. *)
Definition dec_fix (x : Decimal) : Decimal :=
  if Z.abs (coef x) <? 10 ^ prec then x
  else
    let d := ndigits (coef x) - prec in
    let q := round_half_even (coef x) d in
    if Z.abs q <? 10 ^ prec then Dec q (exp x + d)
    else Dec (Z.quot q 10) (exp x + d + 1).

(** [Decimal.__add__]: align both operands on the smaller exponent, add the
    coefficients, round to the context. *)
Definition dec_add (a b : Decimal) : Decimal :=
  let e := Z.min (exp a) (exp b) in
  dec_fix (Dec (coef a * 10 ^ (exp a - e) + coef b * 10 ^ (exp b - e)) e).

(** [Decimal.__mul__]. *)
Definition dec_mul (a b : Decimal) : Decimal :=
  dec_fix (Dec (coef a * coef b) (exp a + exp b)).

(** [Decimal._cmp]: comparisons are exact, no rounding takes place. *)
Definition dec_cmp (a b : Decimal) : comparison :=
  let e := Z.min (exp a) (exp b) in
  Z.compare (coef a * 10 ^ (exp a - e)) (coef b * 10 ^ (exp b - e)).

Definition dec_ge (a b : Decimal) : bool :=
  match dec_cmp a b with Lt => false | _ => true end.

Definition dec_lt (a b : Decimal) : bool :=
  match dec_cmp a b with Lt => true | _ => false end.

(** [Decimal.__int__]: truncation towards zero. *)
Definition dec_int (a : Decimal) : Z :=
  if 0 <=? exp a then coef a * 10 ^ exp a
  else Z.quot (coef a) (10 ^ (- exp a)).

(** [float(d)]: the binary floating-point number nearest to [d].  Binary
    rounding plays no part in what follows, so the value is kept as the
    decimal it comes from. *)
Inductive PyFloat : Type := float (d : Decimal).

(** Python's [sum(iterable, start)]: a left fold with [+]. *)
Definition sum_int (xs : list Z) : Z := fold_left Z.add xs 0.
Definition sum_decimal (xs : list Decimal) (start : Decimal) : Decimal :=
  fold_left dec_add xs start.

(** ** [song_app/payment_gateways.py] *)

(** What [process_payment] returns: the dictionary of the transaction.  The
    key [premium_features] exists for the premium gateway only. *)
Record TransactionResult : Type := {
  success : bool;
  gateway : string;
  amount : PyFloat;
  transaction_id : string;
  status : string;
  song_ids : list Z;
  message : string;
  premium_features : option bool
}.

(** The exception the gateways raise. *)
Inductive exn : Type := ValueError (msg : string).

(** A call either raises or returns. *)
Inductive outcome (A : Type) : Type :=
  | Raise (e : exn)
  | Return (a : A).
Arguments Raise {A} e.
Arguments Return {A} a.

(** The two concrete subclasses of the abstract [PaymentGateway]. *)
Inductive PaymentGateway : Type :=
  | CheapPaymentGateway
  | ExpensivePaymentGateway.

(** [Decimal('10.00')] *)
Definition ten : Decimal := Dec 1000 (-2).

(** In both gateways [obj_id] is the value of [id(object())], the identity
    the interpreter gives the temporary object.  The temporary is released as
    soon as [id] has returned, so the language relates the identities seen by
    two calls in no way.  [amount * 100] multiplies by [Decimal(100)].

    The model covers the amounts [amount_in_range] below.  For amounts of
    thousands of digits the expression of the transaction identifier itself
    raises (the product leaves the exponent range of the context, or the
    integer is too long for the interpreter to print); the model has no such
    amounts in mind and the properties that say a gateway returns are stated
    for amounts in range. *)
Definition cheap_process_payment (obj_id : Z) (amount : Decimal)
    (song_ids : list Z) : outcome TransactionResult :=
  if dec_ge amount ten then
    Raise (ValueError "CheapPaymentGateway can only process amounts under $10")
  else
    Return {|
      success := true;
      gateway := "CheapPaymentGateway";
      amount := float amount;
      transaction_id :=
        "CHEAP-" +:+ pretty obj_id +:+ "-"
                 +:+ pretty (dec_int (dec_mul amount (Dec 100 0)));
      status := "completed";
      song_ids := song_ids;
      message := "Payment processed successfully via CheapPaymentGateway";
      premium_features := None
    |}.

Definition expensive_process_payment (obj_id : Z) (amount : Decimal)
    (song_ids : list Z) : outcome TransactionResult :=
  if dec_lt amount ten then
    Raise (ValueError
             "ExpensivePaymentGateway should be used for amounts $10 or over")
  else
    Return {|
      success := true;
      gateway := "ExpensivePaymentGateway";
      amount := float amount;
      transaction_id :=
        "EXP-" +:+ pretty obj_id +:+ "-"
               +:+ pretty (dec_int (dec_mul amount (Dec 100 0)));
      status := "completed";
      song_ids := song_ids;
      message := "Payment processed successfully via ExpensivePaymentGateway";
      premium_features := Some true
    |}.

(** Method dispatch on the gateway instance. *)
Definition process_payment (g : PaymentGateway) :
    Z -> Decimal -> list Z -> outcome TransactionResult :=
  match g with
  | CheapPaymentGateway => cheap_process_payment
  | ExpensivePaymentGateway => expensive_process_payment
  end.

Definition get_payment_gateway (amount : Decimal) : PaymentGateway :=
  if dec_ge amount ten then ExpensivePaymentGateway else CheapPaymentGateway.

(** The class name of a gateway, the value of the key [gateway]. *)
Definition gateway_name (g : PaymentGateway) : string :=
  match g with
  | CheapPaymentGateway => "CheapPaymentGateway"
  | ExpensivePaymentGateway => "ExpensivePaymentGateway"
  end.

(** ** [song_app/models.py] and the store *)

Module Song.
(** A row of the song table; timestamps are seconds. *)
Record t : Type := mk {
  id : Z;
  title : string;
  length : Z;
  date_released : Z;
  price : Decimal;
  created_at : Z;
  updated_at : Z
}.
End Song.

Module Playlist.
(** A row of the playlist table; its primary key is the key it is stored
    under. *)
Record t : Type := mk {
  name : string;
  created_at : Z;
  updated_at : Z
}.
End Playlist.

(** The relational store.  [song_table] lists the rows in the order of
    [Song.Meta.ordering], the order every query on songs answers in.
    [playlist_songs] is the table behind the many-to-many field
    [Playlist.songs]: its rows are pairs (playlist key, song key) and carry
    neither an order nor a duplicate. *)
Record DB : Type := {
  song_table : list Song.t;
  playlist_table : gmap Z Playlist.t;
  playlist_songs : gset (Z * Z)
}.

Definition song_ids_of (songs : list Song.t) : list Z := Song.id <$> songs.

(** The set of songs a playlist refers to. *)
Definition members (db : DB) (pk : Z) : gset Z :=
  set_map snd (filter (fun r : Z * Z => r.1 = pk) (playlist_songs db)).

(** What the store guarantees: primary keys are unique and every row of the
    many-to-many table refers to a stored song. *)
Definition db_wf (db : DB) : Prop :=
  NoDup (song_ids_of (song_table db)) /\
  forall pk sid, (pk, sid) ∈ playlist_songs db ->
    sid ∈ song_ids_of (song_table db).

(** [DecimalField(max_digits=10, decimal_places=2)]: a stored price has two
    decimal places and at most ten digits. *)
Definition field_price (p : Decimal) : Prop :=
  exp p = -2 /\ Z.abs (coef p) < 10 ^ 10.

(** Every stored price fits its column, and the song table is small enough
    for a sum of prices to stay within the 28 digits of the context. *)
Definition prices_in_range (db : DB) : Prop :=
  Forall (fun s => field_price (Song.price s)) (song_table db) /\
  Z.of_nat (length (song_table db)) <= 10 ^ 18.

(** ** [song_app/serializers.py] *)

(** [SongSerializer(song).data]: the seven fields of [Meta.fields]. *)
Record SongData : Type := {
  sd_id : Z;
  sd_title : string;
  sd_length : Z;
  sd_date_released : Z;
  sd_price : Decimal;
  sd_created_at : Z;
  sd_updated_at : Z
}.

Definition SongSerializer (s : Song.t) : SongData := {|
  sd_id := Song.id s;
  sd_title := Song.title s;
  sd_length := Song.length s;
  sd_date_released := Song.date_released s;
  sd_price := Song.price s;
  sd_created_at := Song.created_at s;
  sd_updated_at := Song.updated_at s
|}.

(** ** [song_app/views.py] *)

(** Values of the parsed request body.  A list holds integer identifiers;
    what the object-relational mapper does with other elements is not part of
    this code. *)
#[local] Set Warnings "-register-all".
Inductive json : Type :=
  | JNull
  | JBool (b : bool)
  | JInt (n : Z)
  | JStr (s : string)
  | JList (ids : list Z)
  | JObj (fields : list (string * json)).

(** Python's truth value, the test of [if not song_ids]. *)
Definition truthy (v : json) : bool :=
  match v with
  | JNull => false
  | JBool b => b
  | JInt n => negb (n =? 0)
  | JStr s => negb (String.eqb s "")
  | JList ids => match ids with [] => false | _ => true end
  | JObj fields => match fields with [] => false | _ => true end
  end.

(** The value of the key [error].  The message of the not-found answer,
    [f'Songs not found for IDs: {missing_ids}'], is kept as the set it
    prints: the order in which Python prints the elements of a set is not
    modelled, so the bodies of two not-found answers are compared as sets of
    identifiers only, never as texts. *)
Inductive error_detail : Type :=
  | Msg (s : string)
  | SongsNotFound (missing_ids : gset Z).

Record PurchaseData : Type := {
  p_success : bool;
  p_message : string;
  total_price : PyFloat;
  songs_purchased : list SongData;
  payment_info : TransactionResult
}.

Inductive purchase_body : Type :=
  | Error (detail : error_detail)
  | Purchased (data : PurchaseData).

Record Response (B : Type) : Type := mkResponse { status_code : Z; body : B }.
Arguments mkResponse {B} status_code body.
Arguments status_code {B} r.
Arguments body {B} r.

Definition HTTP_200_OK : Z := 200.
Definition HTTP_400_BAD_REQUEST : Z := 400.
Definition HTTP_404_NOT_FOUND : Z := 404.
Definition HTTP_500_INTERNAL_SERVER_ERROR : Z := 500.

(** [Song.objects.filter(id__in=song_ids)] *)
Definition filter_id_in (ids : list Z) (db : DB) : list Song.t :=
  filter (fun s => Song.id s ∈ ids) (song_table db).

(** [SongViewSet.purchase]; [data] is [request.data].

    The query is modelled for identifiers the key column can hold
    ([in_key_range] below).  For an identifier beyond them the database
    driver may refuse the query; that exception is raised inside the [try]
    and answered with 500.  The properties that tell 404 from the other
    answers are stated for identifiers in range. *)
Definition purchase (data : gmap string json) (obj_id : Z) (db : DB)
    : Response purchase_body * DB :=
  let song_ids := default (JList []) (data !! "song_ids") in
  if negb (truthy song_ids) then
    (mkResponse HTTP_400_BAD_REQUEST
       (Error (Msg "Please provide song_ids list")), db)
  else
    match song_ids with
    | JList song_ids =>
        let songs := filter_id_in song_ids db in
        if negb (length songs =? length song_ids)%nat then
          let missing_ids :=
            list_to_set song_ids ∖ list_to_set (song_ids_of songs) in
          (mkResponse HTTP_404_NOT_FOUND
             (Error (SongsNotFound missing_ids)), db)
        else
          let total_price :=
            sum_decimal (Song.price <$> songs) (Dec 0 (-2)) in
          let gateway := get_payment_gateway total_price in
          match process_payment gateway obj_id total_price song_ids with
          | Return payment_result =>
              (mkResponse HTTP_200_OK
                 (Purchased {|
                    p_success := true;
                    p_message := "Purchase completed successfully";
                    total_price := float total_price;
                    songs_purchased := SongSerializer <$> songs;
                    payment_info := payment_result
                  |}), db)
          | Raise (ValueError e) =>
              (mkResponse HTTP_500_INTERNAL_SERVER_ERROR (Error (Msg e)), db)
          end
    | _ =>
        (mkResponse HTTP_400_BAD_REQUEST
           (Error (Msg "song_ids must be a list")), db)
    end.

(** ** [playlist_app/models.py] *)

(** [self.songs.all()] for the playlist [pk]: the stored songs it refers to,
    in the order of the song table. *)
Definition songs_all (db : DB) (pk : Z) : list Song.t :=
  filter (fun s => (pk, Song.id s) ∈ playlist_songs db) (song_table db).

Definition get_total_duration (db : DB) (pk : Z) : Z :=
  sum_int (Song.length <$> songs_all db pk).

Definition get_total_price (db : DB) (pk : Z) : Decimal :=
  sum_decimal (Song.price <$> songs_all db pk) (Dec 0 (-2)).

(** ** [playlist_app/serializers.py] *)

(** [PlaylistSerializer(playlist).data]; [song_ids] is write-only and does not
    appear. *)
Record PlaylistData : Type := {
  pd_id : Z;
  pd_name : string;
  pd_songs : list SongData;
  pd_total_duration : Z;
  pd_total_price : PyFloat;
  pd_created_at : Z;
  pd_updated_at : Z
}.

(** The instance supplies its own columns; the songs and both totals are read
    from the store when the representation is built. *)
Definition PlaylistSerializer (db : DB) (pk : Z) (playlist : Playlist.t)
    : PlaylistData := {|
  pd_id := pk;
  pd_name := Playlist.name playlist;
  pd_songs := SongSerializer <$> songs_all db pk;
  pd_total_duration := get_total_duration db pk;
  pd_total_price := float (get_total_price db pk);
  pd_created_at := Playlist.created_at playlist;
  pd_updated_at := Playlist.updated_at playlist
|}.

(** ** [playlist_app/views.py] *)

(** [x[i], x[j] = x[j], x[i]].  Both indices are within the list wherever the
    shuffle swaps; outside, where Python would raise, the list is returned as
    it is. *)
Definition swap {A : Type} (x : list A) (i j : nat) : list A :=
  match x !! i, x !! j with
  | Some a, Some b => <[j := a]> (<[i := b]> x)
  | _, _ => x
  end.

(** The loop of the standard library's [random.shuffle]:
    [for i in reversed(range(1, len(x))): j = randbelow(i + 1); swap].
    [shuffle_from i] runs the iterations [i, i - 1, ..., 1]; the draw of the
    iteration [i] is [rng i], reduced to the range [randbelow] answers in. *)
Fixpoint shuffle_from {A : Type} (rng : nat -> nat) (i : nat) (x : list A)
    : list A :=
  match i with
  | O => x
  | S i' =>
      let j := (rng i mod (i + 1))%nat in
      shuffle_from rng i' (swap x i j)
  end.

Definition random_shuffle {A : Type} (rng : nat -> nat) (x : list A)
    : list A :=
  shuffle_from rng (length x - 1)%nat x.

(** [playlist.songs.clear()]: delete the rows of the playlist. *)
Definition songs_clear (pk : Z) (db : DB) : DB :=
  {| song_table := song_table db;
     playlist_table := playlist_table db;
     playlist_songs := filter (fun r : Z * Z => r.1 ≠ pk) (playlist_songs db)
  |}.

(** [playlist.songs.set(objs)]: rows of the playlist whose song is not among
    [objs] are removed, and a row is added for every song of [objs] that has
    none. *)
Definition songs_set (pk : Z) (objs : list Song.t) (db : DB) : DB :=
  let ids := song_ids_of objs in
  {| song_table := song_table db;
     playlist_table := playlist_table db;
     playlist_songs :=
       filter (fun r : Z * Z => r.1 ≠ pk ∨ r.2 ∈ ids) (playlist_songs db)
       ∪ list_to_set ((fun sid => (pk, sid)) <$> ids)
  |}.

(** The body of a shuffle answer: [detail] for the not-found answer the
    framework builds from [NotFound], else [message] and, where the view
    gives it, the key [playlist]. *)
Record ShuffleData : Type := {
  s_message : string;
  s_playlist : option PlaylistData
}.

Inductive shuffle_body : Type :=
  | Detail (detail : string)
  | Shuffled (data : ShuffleData).

(** [PlaylistViewSet.shuffle] *)
Definition shuffle (pk : Z) (rng : nat -> nat) (db : DB)
    : Response shuffle_body * DB :=
  match playlist_table db !! pk with
  | None =>
      (mkResponse HTTP_404_NOT_FOUND (Detail "Playlist not found"), db)
  | Some playlist =>
      let songs := songs_all db pk in
      if (length songs <? 2)%nat then
        (mkResponse HTTP_200_OK
           (Shuffled {|
              s_message :=
                "Playlist has fewer than 2 songs, no shuffle needed";
              s_playlist := None
            |}), db)
      else
        let songs := random_shuffle rng songs in
        let db := songs_clear pk db in
        let db := songs_set pk songs db in
        (mkResponse HTTP_200_OK
           (Shuffled {|
              s_message := "Playlist shuffled successfully";
              s_playlist := Some (PlaylistSerializer db pk playlist)
            |}), db)
  end.

(** ** Notions of the specification *)

(** The exact sum of a list of integers, and of a list of rationals. *)
Definition Zsum (xs : list Z) : Z := foldr Z.add 0 xs.
Definition Qsum (xs : list Q) : Q := foldr Qplus 0%Q xs.

(** A success result as the specification describes it: success flag,
    status "completed", the name of the variant, the amount and the song
    identifiers given. *)
Definition completed (g : PaymentGateway) (a : Decimal) (ids : list Z)
    (r : TransactionResult) : Prop :=
  success r = true /\ status r = "completed" /\
  gateway r = gateway_name g /\ amount r = float a /\ song_ids r = ids.

(** The error a gateway raises for an amount outside its band. *)
Definition domain_message (g : PaymentGateway) : string :=
  match g with
  | CheapPaymentGateway =>
      "CheapPaymentGateway can only process amounts under $10"
  | ExpensivePaymentGateway =>
      "ExpensivePaymentGateway should be used for amounts $10 or over"
  end.

Definition domain_error (g : PaymentGateway) : exn :=
  ValueError (domain_message g).

(** The amounts the model of the gateways covers: those below 10^26 in
    magnitude, whatever their exponent.  Every total of a purchase is one
    (lemma [total_in_range]). *)
Definition amount_in_range (a : Decimal) : Prop :=
  Qlt (Qopp (inject_Z (10 ^ 26))) (dec_value a) /\
  Qlt (dec_value a) (inject_Z (10 ^ 26)).



(** The stored songs a playlist has as members. *)
Definition member_songs (db : DB) (pk : Z) : list Song.t :=
  filter (fun s => Song.id s ∈ members db pk) (song_table db).

(** ** Stores of the test suites *)

Definition mk_song (id : Z) (title : string) (length : Z) (cents : Z)
    : Song.t :=
  Song.mk id title length 0 (Dec cents (-2)) id id.

(** [PurchaseAPITests.setUp], most recent row first, with the two songs of
    [test_purchase_exactly_10_dollars]. *)
Definition purchase_db : DB := {|
  song_table := [
    mk_song 5 "5 Dollar Song 2" 200 500;
    mk_song 4 "5 Dollar Song" 180 500;
    mk_song 3 "Expensive Song" 240 1200;
    mk_song 2 "Cheap Song 2" 200 400;
    mk_song 1 "Cheap Song 1" 180 300 ];
  playlist_table := ∅;
  playlist_songs := ∅
|}.

(** [PlaylistShuffleTests.setUp] with the playlists of the single-song and
    the empty-playlist tests: playlist 1 has five songs, playlist 2 one,
    playlist 3 none. *)
Definition shuffle_db : DB := {|
  song_table := [
    mk_song 5 "Song 5" 260 399;
    mk_song 4 "Song 4" 240 399;
    mk_song 3 "Song 3" 220 399;
    mk_song 2 "Song 2" 200 399;
    mk_song 1 "Song 1" 180 399 ];
  playlist_table :=
    <[1 := Playlist.mk "Shuffle Playlist" 10 10]>
      (<[2 := Playlist.mk "Single Song Playlist" 11 11]>
         (<[3 := Playlist.mk "Empty Playlist" 12 12]> ∅));
  playlist_songs :=
    list_to_set [(1, 1); (1, 2); (1, 3); (1, 4); (1, 5); (2, 1)]
|}.

(** ** The string of a song and of a playlist *)

(** ['0' * k] *)
Fixpoint zeros (k : nat) : string :=
  match k with
  | O => ""
  | S k' => String "0" (zeros k')
  end.

(** [Decimal.__str__], the scientific string of a finite decimal: [int_] is
    the digit string [self._int], [dotplace] the number of digits before the
    point; an exponent is printed when the point does not fall where the
    digits put it. *)
Definition dec_str (d : Decimal) : string :=
  let sign := if coef d <? 0 then "-" else "" in
  let int_ := pretty (Z.abs (coef d)) in
  let len := Z.of_nat (String.length int_) in
  let leftdigits := exp d + len in
  let dotplace :=
    if (exp d <=? 0) && (-6 <? leftdigits) then leftdigits else 1 in
  let intpart :=
    if dotplace <=? 0 then "0"
    else if len <=? dotplace then int_ +:+ zeros (Z.to_nat (dotplace - len))
    else String.substring 0 (Z.to_nat dotplace) int_ in
  let fracpart :=
    if dotplace <=? 0 then "." +:+ zeros (Z.to_nat (- dotplace)) +:+ int_
    else if len <=? dotplace then ""
    else "." +:+ String.substring (Z.to_nat dotplace)
                   (Z.to_nat (len - dotplace)) int_ in
  let exp_ :=
    if leftdigits =? dotplace then ""
    else "E" +:+ (if 0 <=? leftdigits - dotplace then "+" else "")
             +:+ pretty (leftdigits - dotplace) in
  sign +:+ intpart +:+ fracpart +:+ exp_.

(** [Song.__str__]: [f"{self.title} - ${self.price}"] *)
Definition Song__str__ (self : Song.t) : string :=
  Song.title self +:+ " - $" +:+ dec_str (Song.price self).

(** [Playlist.__str__] *)
Definition Playlist__str__ (self : Playlist.t) : string :=
  Playlist.name self.

(** ** Auxiliary notions *)

(** A string without the character [-]: the decimal numeral of a number
    that is not negative is one. *)
Fixpoint no_dash (s : string) : Prop :=
  match s with
  | EmptyString => True
  | String c s' => c ≠ "-"%char /\ no_dash s'
  end.

(** * Properties *)

(** ** Decimal numbers *)

Section DecimalFacts.

Local Notation "10^ e" := (Qpower (inject_Z 10) e) (at level 30).

Lemma ten_pow_pos (e : Z) : (0 < 10^ e)%Q.
Proof. apply Qpower_0_lt. reflexivity. Qed.

(** Moving part of the exponent into the coefficient keeps the value. *)
Lemma dec_value_align (a : Decimal) (e : Z) :
  e <= exp a ->
  (dec_value a == inject_Z (coef a * 10 ^ (exp a - e)) * 10^ e)%Q.
Proof.
  intros He. unfold dec_value.
  rewrite inject_Z_mult, Zpower_Qpower by lia.
  rewrite <- Qmult_assoc, <- Qpower_plus by discriminate.
  replace (exp a - e + e) with (exp a) by lia. reflexivity.
Qed.

(** The comparison of the library is the order of the rationals. *)
Lemma dec_cmp_value (a b : Decimal) :
  dec_cmp a b = (dec_value a ?= dec_value b)%Q.
Proof.
  set (e := Z.min (exp a) (exp b)).
  assert (Ha := dec_value_align a e ltac:(lia)).
  assert (Hb := dec_value_align b e ltac:(lia)).
  unfold dec_cmp. fold e.
  set (x := coef a * 10 ^ (exp a - e)) in *.
  set (y := coef b * 10 ^ (exp b - e)) in *.
  rewrite Ha, Hb. clearbody x y. clear Ha Hb.
  pose proof (ten_pow_pos e) as Hp.
  destruct (Z.compare_spec x y) as [Heq | Hlt | Hgt]; symmetry.
  - subst y. apply Qeq_alt. reflexivity.
  - apply Qlt_alt, Qmult_lt_r; [assumption|]. rewrite <- Zlt_Qlt. assumption.
  - apply Qgt_alt, Qmult_lt_r; [assumption|]. rewrite <- Zlt_Qlt. assumption.
Qed.

Lemma dec_lt_value (a b : Decimal) :
  dec_lt a b = true <-> (dec_value a < dec_value b)%Q.
Proof.
  unfold dec_lt. rewrite dec_cmp_value, Qlt_alt.
  destruct (dec_value a ?= dec_value b)%Q; intuition congruence.
Qed.

Lemma dec_ge_value (a b : Decimal) :
  dec_ge a b = true <-> (dec_value b <= dec_value a)%Q.
Proof.
  unfold dec_ge. rewrite dec_cmp_value, Qle_alt, <- Qcompare_antisym.
  destruct (dec_value b ?= dec_value a)%Q; simpl; split; intros H;
    try reflexivity; try discriminate; try (exfalso; apply H; reflexivity).
Qed.

Lemma dec_ge_lt (a b : Decimal) : dec_ge a b = negb (dec_lt a b).
Proof. unfold dec_ge, dec_lt. destruct (dec_cmp a b); reflexivity. Qed.

Lemma dec_value_ten : (dec_value ten == 10)%Q.
Proof. reflexivity. Qed.

(** A result of fewer than 28 digits is not rounded. *)
Lemma dec_fix_small (x : Decimal) :
  Z.abs (coef x) < 10 ^ prec -> dec_fix x = x.
Proof.
  intros H. unfold dec_fix.
  destruct (Z.ltb_spec (Z.abs (coef x)) (10 ^ prec)); [reflexivity | lia].
Qed.

(** Adding two amounts of two decimal places adds their cents. *)
Lemma dec_add_cents (x y : Z) :
  Z.abs (x + y) < 10 ^ prec ->
  dec_add (Dec x (-2)) (Dec y (-2)) = Dec (x + y) (-2).
Proof.
  intros H. unfold dec_add. cbn [coef exp].
  replace (Z.min (-2) (-2)) with (-2) by lia.
  replace (-2 - -2) with 0 by lia.
  rewrite Z.pow_0_r, !Z.mul_1_r. apply dec_fix_small. assumption.
Qed.

Lemma dec_value_cents (c : Z) : (dec_value (Dec c (-2)) == c # 100)%Q.
Proof.
  unfold dec_value. cbn [coef exp].
  change (10^ (-2)) with (/ (100 # 1))%Q.
  unfold Qeq, Qmult, Qinv, inject_Z. simpl Qnum. simpl Qden. lia.
Qed.

End DecimalFacts.

(** Sums of 29 digits are rounded to 28, a tie to the even neighbour; a
    carry out of the 28 digits moves the exponent. *)
Example dec_add_rounds_down :
  dec_add (Dec (10 ^ 28 - 1) 0) (Dec 15 (-1)) = Dec (10 ^ 27) 1.
Proof. vm_compute. reflexivity. Qed.

Example dec_add_tie_to_even_up :
  dec_add (Dec (10 ^ 28 - 1) 0) (Dec 5 (-1)) = Dec (10 ^ 27) 1.
Proof. vm_compute. reflexivity. Qed.

Example dec_add_tie_to_even_down :
  dec_add (Dec (10 ^ 28 - 2) 0) (Dec 5 (-1)) = Dec (10 ^ 28 - 2) 0.
Proof. vm_compute. reflexivity. Qed.

(** [int(Decimal('-1.234') * 100)] is [-123]. *)
Example dec_int_truncates :
  dec_int (dec_mul (Dec (-1234) (-3)) (Dec 100 0)) = -123.
Proof. vm_compute. reflexivity. Qed.

(** ** Payment gateways *)

(** C1.  The selector answers the basic gateway exactly for the amounts below
    10.00 and the premium gateway exactly for the amounts of 10.00 and more;
    the amount 10.00 itself gets the premium gateway. *)
Theorem get_payment_gateway_threshold (p : Decimal) :
  (get_payment_gateway p = CheapPaymentGateway <-> (dec_value p < 10)%Q) /\
  (get_payment_gateway p = ExpensivePaymentGateway <->
     (10 <= dec_value p)%Q) /\
  get_payment_gateway (Dec 1000 (-2)) = ExpensivePaymentGateway.
Proof.
  unfold get_payment_gateway. rewrite <- dec_value_ten.
  rewrite <- dec_lt_value, <- dec_ge_value, dec_ge_lt.
  repeat split; destruct (dec_lt p ten); simpl; congruence.
Qed.

(** C2.  For an amount in range: the basic gateway raises its error exactly
    for the amounts of 10.00 and more, the premium gateway exactly for the
    amounts below 10.00; a call that does not raise it returns a result with
    the success flag, the status "completed", the name of the gateway, the
    amount and the song identifiers it was given. *)
Theorem process_payment_bands (obj_id : Z) (a : Decimal) (ids : list Z) :
  amount_in_range a ->
  (process_payment CheapPaymentGateway obj_id a ids
     = Raise (domain_error CheapPaymentGateway) <-> (10 <= dec_value a)%Q) /\
  (process_payment ExpensivePaymentGateway obj_id a ids
     = Raise (domain_error ExpensivePaymentGateway)
   <-> (dec_value a < 10)%Q) /\
  (forall g,
     process_payment g obj_id a ids = Raise (domain_error g) \/
     (exists r, process_payment g obj_id a ids = Return r /\
                completed g a ids r)).
Proof.
  intros _.
  rewrite <- dec_value_ten, <- dec_lt_value, <- dec_ge_value, dec_ge_lt.
  simpl. unfold cheap_process_payment, expensive_process_payment.
  rewrite dec_ge_lt.
  destruct (dec_lt a ten); simpl.
  - split; [split; discriminate |]. split; [split; reflexivity |].
    intros [|]; simpl; unfold cheap_process_payment,
      expensive_process_payment; rewrite ?dec_ge_lt;
      destruct (dec_lt a ten) eqn:Hlt; simpl;
      first [ left; reflexivity
            | right; eexists; split; [reflexivity | repeat split] ].
  - split; [split; reflexivity |]. split; [split; discriminate |].
    intros [|]; simpl; unfold cheap_process_payment,
      expensive_process_payment; rewrite ?dec_ge_lt;
      destruct (dec_lt a ten) eqn:Hlt; simpl;
      first [ left; reflexivity
            | right; eexists; split; [reflexivity | repeat split] ].
Qed.

Lemma amount_999_in_range : amount_in_range (Dec 999 (-2)).
Proof. split; reflexivity. Qed.

Lemma process_payment_bands_witness :
  amount_in_range (Dec 999 (-2)) /\
  (process_payment CheapPaymentGateway 7 (Dec 999 (-2)) [1; 2]
     = Raise (domain_error CheapPaymentGateway)
   <-> Qle 10 (dec_value (Dec 999 (-2)))) /\
  (process_payment ExpensivePaymentGateway 7 (Dec 999 (-2)) [1; 2]
     = Raise (domain_error ExpensivePaymentGateway)
   <-> Qlt (dec_value (Dec 999 (-2))) 10) /\
  (forall g,
     process_payment g 7 (Dec 999 (-2)) [1; 2] = Raise (domain_error g) \/
     (exists r, process_payment g 7 (Dec 999 (-2)) [1; 2] = Return r /\
                completed g (Dec 999 (-2)) [1; 2] r)).
Proof.
  split; [exact amount_999_in_range |].
  apply (process_payment_bands 7 (Dec 999 (-2)) [1; 2]).
  exact amount_999_in_range.
Defined.

(** The amounts of the gateway tests. *)
Example get_payment_gateway_tests :
  get_payment_gateway (Dec 500 (-2)) = CheapPaymentGateway /\
  get_payment_gateway (Dec 1500 (-2)) = ExpensivePaymentGateway /\
  get_payment_gateway (Dec 999 (-2)) = CheapPaymentGateway /\
  get_payment_gateway (Dec 1 1) = ExpensivePaymentGateway /\
  get_payment_gateway (Dec 99999 (-4)) = CheapPaymentGateway.
Proof. repeat split. Qed.

Example cheap_gateway_valid_amount :
  exists r,
    process_payment CheapPaymentGateway 7 (Dec 999 (-2)) [1; 2] = Return r /\
    success r = true /\ gateway r = "CheapPaymentGateway" /\
    amount r = float (Dec 999 (-2)) /\ premium_features r = None.
Proof. eexists. repeat split. Qed.

Example cheap_gateway_too_high_amount :
  process_payment CheapPaymentGateway 7 (Dec 1000 (-2)) [1] =
    Raise (ValueError "CheapPaymentGateway can only process amounts under $10").
Proof. reflexivity. Qed.

Example expensive_gateway_valid_amount :
  exists r,
    process_payment ExpensivePaymentGateway 7 (Dec 1000 (-2)) [1; 2]
      = Return r /\
    success r = true /\ gateway r = "ExpensivePaymentGateway" /\
    amount r = float (Dec 1000 (-2)) /\ premium_features r = Some true.
Proof. eexists. repeat split. Qed.

Example expensive_gateway_too_low_amount :
  process_payment ExpensivePaymentGateway 7 (Dec 999 (-2)) [1] =
    Raise (ValueError
             "ExpensivePaymentGateway should be used for amounts $10 or over").
Proof. reflexivity. Qed.

(** The gateway the selector answers accepts the amount it was selected
    for. *)
Lemma selected_gateway_returns (obj_id : Z) (p : Decimal) (ids : list Z) :
  exists r,
    process_payment (get_payment_gateway p) obj_id p ids = Return r /\
    completed (get_payment_gateway p) p ids r.
Proof.
  unfold get_payment_gateway.
  destruct (dec_ge p ten) eqn:Hge; simpl;
    unfold expensive_process_payment, cheap_process_payment.
  - rewrite dec_ge_lt in Hge. apply negb_true_iff in Hge. rewrite Hge.
    eexists. split; [reflexivity | repeat split].
  - rewrite Hge. eexists. split; [reflexivity | repeat split].
Qed.

(** C3.  Two calls in sequence, as in [test_transaction_id_uniqueness]: the
    same gateway, the amount 5.00 twice, the song lists [1] and [2].  When
    the interpreter gives the temporary object of the second call the
    identity the released temporary of the first call had, both results
    carry the same transaction identifier. *)
Theorem transaction_id_repeats :
  exists r1 r2,
    process_payment CheapPaymentGateway 140234866205776 (Dec 500 (-2)) [1]
      = Return r1 /\
    process_payment CheapPaymentGateway 140234866205776 (Dec 500 (-2)) [2]
      = Return r2 /\
    transaction_id r1 = "CHEAP-140234866205776-500" /\
    transaction_id r2 = "CHEAP-140234866205776-500".
Proof.
  do 2 eexists. split; [reflexivity |]. split; [reflexivity |].
  split; vm_compute; reflexivity.
Qed.

(** Whatever the amount and the gateway, the transaction identifier depends
    on the song list in no way: only the identity of the temporary object
    tells two calls with one amount apart. *)
Lemma transaction_id_same_identity (g : PaymentGateway) (obj_id : Z)
    (a : Decimal) (ids1 ids2 : list Z) (r1 r2 : TransactionResult) :
  process_payment g obj_id a ids1 = Return r1 ->
  process_payment g obj_id a ids2 = Return r2 ->
  transaction_id r1 = transaction_id r2.
Proof.
  destruct g; simpl;
    unfold cheap_process_payment, expensive_process_payment;
    [destruct (dec_ge a ten) | destruct (dec_lt a ten)];
    try discriminate; intros [= <-] [= <-]; reflexivity.
Qed.

(** ** Purchase *)

(** The answer of the view once the request is known to carry a non-empty
    list. *)
Lemma purchase_list (data : gmap string json) (ids : list Z) (obj_id : Z)
    (db : DB) :
  data !! "song_ids" = Some (JList ids) -> ids ≠ [] ->
  purchase data obj_id db =
    let songs := filter_id_in ids db in
    if negb (length songs =? length ids)%nat then
      (mkResponse HTTP_404_NOT_FOUND
         (Error (SongsNotFound
                   (list_to_set ids ∖ list_to_set (song_ids_of songs)))), db)
    else
      let total := sum_decimal (Song.price <$> songs) (Dec 0 (-2)) in
      match process_payment (get_payment_gateway total) obj_id total ids with
      | Return payment_result =>
          (mkResponse HTTP_200_OK
             (Purchased {|
                p_success := true;
                p_message := "Purchase completed successfully";
                total_price := float total;
                songs_purchased := SongSerializer <$> songs;
                payment_info := payment_result
              |}), db)
      | Raise (ValueError e) =>
          (mkResponse HTTP_500_INTERNAL_SERVER_ERROR (Error (Msg e)), db)
      end.
Proof.
  intros Hdata Hne. unfold purchase. rewrite Hdata. simpl.
  destruct ids as [| sid ids]; [congruence | reflexivity].
Qed.

Lemma filter_id_in_ids (ids : list Z) (db : DB) (sid : Z) :
  sid ∈ song_ids_of (filter_id_in ids db) <->
  sid ∈ ids /\ sid ∈ song_ids_of (song_table db).
Proof.
  unfold song_ids_of, filter_id_in. rewrite !list_elem_of_fmap. split.
  - intros (s & -> & Hs). apply list_elem_of_filter in Hs as [Hin Hs].
    split; [assumption | exists s; auto].
  - intros (Hin & s & -> & Hs). exists s. split; [reflexivity |].
    apply list_elem_of_filter. auto.
Qed.

Lemma filter_id_in_NoDup (ids : list Z) (db : DB) :
  NoDup (song_ids_of (song_table db)) ->
  NoDup (song_ids_of (filter_id_in ids db)).
Proof.
  intros H. refine (sublist_NoDup _ _ H _). unfold song_ids_of, filter_id_in.
  apply fmap_sublist, sublist_filter.
Qed.

(** The test [songs.count() != len(song_ids)] passes exactly for the lists
    without a repeated identifier all of whose identifiers are stored. *)
Lemma filter_id_in_length (ids : list Z) (db : DB) :
  NoDup (song_ids_of (song_table db)) ->
  length (filter_id_in ids db) = length ids <->
  NoDup ids /\ forall sid, sid ∈ ids -> sid ∈ song_ids_of (song_table db).
Proof.
  intros Hkeys. pose proof (filter_id_in_NoDup ids db Hkeys) as Hnd.
  split.
  - intros Hlen.
    assert (song_ids_of (filter_id_in ids db) ≡ₚ ids) as Hperm.
    { apply submseteq_length_Permutation.
      - apply NoDup_submseteq; [assumption |].
        intros sid Hsid. apply filter_id_in_ids in Hsid. tauto.
      - unfold song_ids_of. rewrite length_fmap. lia. }
    split.
    + rewrite <- Hperm. assumption.
    + intros sid Hsid. rewrite <- Hperm in Hsid.
      apply filter_id_in_ids in Hsid. tauto.
  - intros [Hids Hall].
    assert (song_ids_of (filter_id_in ids db) ≡ₚ ids) as Hperm.
    { apply NoDup_Permutation; [assumption .. |].
      intros sid. rewrite filter_id_in_ids. split; [tauto | auto]. }
    apply Permutation_length in Hperm.
    unfold song_ids_of in Hperm. rewrite length_fmap in Hperm. assumption.
Qed.



(** C4.  The request names the stored song 1 twice.  Every requested
    identifier resolves, and the view answers not-found, naming no
    identifier. *)
Theorem purchase_repeated_id_not_found :
  (forall sid, sid ∈ [1; 1] -> sid ∈ song_ids_of (song_table purchase_db)) /\
  purchase {[ "song_ids" := JList [1; 1] ]} 0 purchase_db =
    (mkResponse HTTP_404_NOT_FOUND (Error (SongsNotFound ∅)), purchase_db).
Proof.
  split.
  - apply Forall_forall.
    repeat constructor; apply bool_decide_unpack; vm_compute; exact I.
  - vm_compute. reflexivity.
Qed.

(** C7.  A request without [song_ids], with an empty list, or with a value
    that is no list gets the answer 400 with an error message; the store is
    left as it was, whatever it holds. *)
Theorem purchase_validation (data : gmap string json) (obj_id : Z) (db : DB) :
  data !! "song_ids" = None \/
  data !! "song_ids" = Some (JList []) \/
  (exists v, data !! "song_ids" = Some v /\ forall ids, v <> JList ids) ->
  exists msg,
    purchase data obj_id db =
      (mkResponse HTTP_400_BAD_REQUEST (Error (Msg msg)), db).
Proof.
  unfold purchase. intros [-> | [-> | (v & -> & Hv)]]; simpl.
  - eexists. reflexivity.
  - eexists. reflexivity.
  - destruct (truthy v); simpl; [| eexists; reflexivity].
    destruct v; try (eexists; reflexivity).
    exfalso. eapply Hv. reflexivity.
Qed.

Lemma purchase_validation_witness :
  (({[ "song_ids" := JStr "not-a-list" ]} : gmap string json) !! "song_ids"
     = None \/
   ({[ "song_ids" := JStr "not-a-list" ]} : gmap string json) !! "song_ids"
     = Some (JList []) \/
   (exists v,
      ({[ "song_ids" := JStr "not-a-list" ]} : gmap string json) !! "song_ids"
        = Some v /\ forall ids, v <> JList ids)) /\
  exists msg,
    purchase {[ "song_ids" := JStr "not-a-list" ]} 0 purchase_db =
      (mkResponse HTTP_400_BAD_REQUEST (Error (Msg msg)), purchase_db).
Proof.
  assert (exists v,
    ({[ "song_ids" := JStr "not-a-list" ]} : gmap string json) !! "song_ids"
      = Some v /\ forall ids, v <> JList ids) as H.
  { exists (JStr "not-a-list"). split; [reflexivity | discriminate]. }
  split.
  - right. right. exact H.
  - apply (purchase_validation _ 0 purchase_db). right. right. exact H.
Defined.

(** The three requests of the tests. *)
Example purchase_no_song_ids :
  purchase ∅ 0 purchase_db =
    (mkResponse HTTP_400_BAD_REQUEST
       (Error (Msg "Please provide song_ids list")), purchase_db).
Proof. reflexivity. Qed.

Example purchase_empty_list :
  purchase {[ "song_ids" := JList [] ]} 0 purchase_db =
    (mkResponse HTTP_400_BAD_REQUEST
       (Error (Msg "Please provide song_ids list")), purchase_db).
Proof. reflexivity. Qed.

Example purchase_song_ids_not_list :
  purchase {[ "song_ids" := JStr "not-a-list" ]} 0 purchase_db =
    (mkResponse HTTP_400_BAD_REQUEST
       (Error (Msg "song_ids must be a list")), purchase_db).
Proof. reflexivity. Qed.

(** ** Sums *)

Lemma fold_left_add (xs : list Z) (a : Z) :
  fold_left Z.add xs a = a + Zsum xs.
Proof.
  revert a. induction xs as [| x xs IH]; intros a; simpl.
  - lia.
  - rewrite IH. lia.
Qed.

Lemma sum_int_Zsum (xs : list Z) : sum_int xs = Zsum xs.
Proof. unfold sum_int. rewrite fold_left_add. lia. Qed.

(** The bounds of the price column and of the context, as numerals. *)
Ltac pow10 :=
  unfold prec in *;
  change (10 ^ 10) with 10000000000 in *;
  change (10 ^ 18) with 1000000000000000000 in *;
  change (10 ^ 28) with 10000000000000000000000000000 in *.

(** As long as the running total stays within the precision of the context,
    the left fold of [sum] adds the cents and never rounds. *)
Lemma sum_decimal_cents (ps : list Decimal) (acc : Z) :
  Forall field_price ps ->
  Z.abs acc + Z.of_nat (length ps) * 10 ^ 10 <= 10 ^ prec ->
  sum_decimal ps (Dec acc (-2)) = Dec (acc + Zsum (coef <$> ps)) (-2).
Proof.
  unfold sum_decimal. revert acc.
  induction ps as [| [c e] ps IH]; intros acc Hps Hacc; simpl.
  - f_equal. lia.
  - apply Forall_cons in Hps as [[He Hc] Hps]. simpl in He, Hc. subst e.
    simpl length in Hacc. rewrite Nat2Z.inj_succ in Hacc.
    rewrite dec_add_cents by (pow10; lia).
    rewrite IH by (assumption || (pow10; lia)).
    f_equal. unfold Zsum. simpl. rewrite <- Z.add_assoc. reflexivity.
Qed.

Lemma Qcents_plus (x y : Z) : (x + y # 100 == (x # 100) + (y # 100))%Q.
Proof. unfold Qeq, Qplus. simpl. lia. Qed.

Lemma Qsum_cents (ps : list Decimal) :
  Forall field_price ps ->
  (dec_value (Dec (Zsum (coef <$> ps)) (-2)) == Qsum (dec_value <$> ps))%Q.
Proof.
  induction 1 as [| [c e] ps [He _] _ IH].
  - reflexivity.
  - simpl in He. subst e.
    change (Zsum (coef <$> Dec c (-2) :: ps))
      with (c + Zsum (coef <$> ps)).
    change (Qsum (dec_value <$> Dec c (-2) :: ps))
      with (dec_value (Dec c (-2)) + Qsum (dec_value <$> ps))%Q.
    rewrite <- IH, !dec_value_cents. apply Qcents_plus.
Qed.

(** The sum of the prices of stored songs is exact. *)
Lemma sum_prices_exact (db : DB) (songs : list Song.t) :
  prices_in_range db -> songs `sublist_of` song_table db ->
  let total := sum_decimal (Song.price <$> songs) (Dec 0 (-2)) in
  exp total = -2 /\
  (dec_value total == Qsum (dec_value <$> (Song.price <$> songs)))%Q.
Proof.
  intros [Hprices Hsize] Hsub total.
  assert (Forall field_price (Song.price <$> songs)) as Hps.
  { apply Forall_fmap, Forall_forall. intros s Hs.
    apply (proj1 (Forall_forall _ _) Hprices).
    eapply elem_of_sublist; eassumption. }
  assert (total = Dec (0 + Zsum (coef <$> (Song.price <$> songs))) (-2))
    as ->.
  { apply sum_decimal_cents; [assumption |].
    rewrite length_fmap. apply sublist_length in Hsub.
    simpl Z.abs. pow10. lia. }
  split; [reflexivity |]. rewrite Z.add_0_l. apply Qsum_cents. assumption.
Qed.

(** The stores of the tests are well formed. *)
Lemma purchase_db_wf : db_wf purchase_db.
Proof.
  split.
  - apply (bool_decide_unpack _). vm_compute. exact I.
  - intros pk sid H. apply not_elem_of_empty in H. destruct H.
Qed.

Lemma purchase_db_prices : prices_in_range purchase_db.
Proof.
  split.
  - repeat constructor.
  - vm_compute. discriminate.
Qed.

Lemma Zsum_cents_bound (ps : list Decimal) :
  Forall field_price ps ->
  Z.abs (Zsum (coef <$> ps)) <= Z.of_nat (length ps) * (10 ^ 10 - 1).
Proof.
  induction 1 as [| [c e] ps [_ Hc] _ IH].
  - simpl. lia.
  - change (Zsum (coef <$> Dec c e :: ps)) with (c + Zsum (coef <$> ps)).
    simpl length. rewrite Nat2Z.inj_succ. simpl in Hc. pow10. lia.
Qed.

(** A total of stored prices is an amount in range. *)
Lemma total_in_range (db : DB) (songs : list Song.t) :
  prices_in_range db -> songs `sublist_of` song_table db ->
  amount_in_range (sum_decimal (Song.price <$> songs) (Dec 0 (-2))).
Proof.
  intros [Hprices Hsize] Hsub.
  assert (Forall field_price (Song.price <$> songs)) as Hps.
  { apply Forall_fmap, Forall_forall. intros s Hs.
    apply (proj1 (Forall_forall _ _) Hprices).
    eapply elem_of_sublist; eassumption. }
  pose proof (Zsum_cents_bound _ Hps) as Hbound.
  rewrite length_fmap in Hbound. apply sublist_length in Hsub.
  rewrite sum_decimal_cents.
  - rewrite Z.add_0_l. set (c := Zsum _) in *. clearbody c.
    unfold amount_in_range. rewrite dec_value_cents.
    unfold Qlt, Qopp, inject_Z. simpl Qnum. simpl Qden.
    change (10 ^ 26) with 100000000000000000000000000.
    pow10. lia.
  - exact Hps.
  - rewrite length_fmap. simpl Z.abs. pow10. lia.
Qed.

(** C6.  Take the total [p] of the prices of stored songs, as the purchase
    computes it.  The gateway the selector answers for [p] accepts [p] and
    returns its result.  More generally, for no amount at all does the
    selected gateway raise the error of a gateway, and no answer of the
    purchase carries such an error. *)
Theorem selected_gateway_never_raises (db : DB) (songs : list Song.t)
    (ids : list Z) (obj_id : Z) :
  prices_in_range db -> songs `sublist_of` song_table db ->
  let p := sum_decimal (Song.price <$> songs) (Dec 0 (-2)) in
  amount_in_range p /\
  (exists r,
     process_payment (get_payment_gateway p) obj_id p ids = Return r /\
     completed (get_payment_gateway p) p ids r) /\
  (forall q g,
     process_payment (get_payment_gateway q) obj_id q ids
       <> Raise (domain_error g)) /\
  (forall data g,
     body (purchase data obj_id db).1 <> Error (Msg (domain_message g))).
Proof.
  intros Hrange Hsub p.
  split; [apply (total_in_range db); assumption |].
  split; [apply selected_gateway_returns |].
  split.
  - intros q g. destruct (selected_gateway_returns obj_id q ids)
      as (r & -> & _). discriminate.
  - intros data g. unfold purchase.
    destruct (negb (truthy _)); [destruct g; discriminate |].
    destruct (default _ _); try (destruct g; discriminate).
    destruct (negb _); [discriminate |].
    match goal with
    | |- context [process_payment (get_payment_gateway ?t) ?o ?t ?l] =>
        destruct (selected_gateway_returns o t l) as (r & -> & _)
    end.
    discriminate.
Qed.

Lemma selected_gateway_never_raises_witness :
  prices_in_range purchase_db /\
  filter_id_in [4; 5] purchase_db `sublist_of` song_table purchase_db /\
  let p :=
    sum_decimal (Song.price <$> filter_id_in [4; 5] purchase_db) (Dec 0 (-2))
  in
  amount_in_range p /\
  (exists r,
     process_payment (get_payment_gateway p) 7 p [4; 5] = Return r /\
     completed (get_payment_gateway p) p [4; 5] r) /\
  (forall q g,
     process_payment (get_payment_gateway q) 7 q [4; 5]
       <> Raise (domain_error g)) /\
  (forall data g,
     body (purchase data 7 purchase_db).1 <> Error (Msg (domain_message g))).
Proof.
  assert (filter_id_in [4; 5] purchase_db `sublist_of` song_table purchase_db)
    as Hsub by apply sublist_filter.
  split; [exact purchase_db_prices |]. split; [exact Hsub |].
  apply (selected_gateway_never_raises purchase_db
           (filter_id_in [4; 5] purchase_db) [4; 5] 7).
  - exact purchase_db_prices.
  - exact Hsub.
Defined.




(** The purchases of the tests: 3.00 and 4.00 make 7.00 and go to the basic
    gateway; with 12.00 more they make 19.00 and go to the premium gateway;
    two songs of 5.00 make exactly 10.00 and go to the premium gateway. *)
Example purchase_cheap_songs :
  exists r,
    purchase {[ "song_ids" := JList [1; 2] ]} 7 purchase_db
      = (mkResponse HTTP_200_OK (Purchased r), purchase_db) /\
    total_price r = float (Dec 700 (-2)) /\
    gateway (payment_info r) = "CheapPaymentGateway".
Proof. eexists. split; [vm_compute; reflexivity | split; reflexivity]. Qed.

Example purchase_expensive_songs :
  exists r,
    purchase {[ "song_ids" := JList [1; 2; 3] ]} 7 purchase_db
      = (mkResponse HTTP_200_OK (Purchased r), purchase_db) /\
    total_price r = float (Dec 1900 (-2)) /\
    gateway (payment_info r) = "ExpensivePaymentGateway".
Proof. eexists. split; [vm_compute; reflexivity | split; reflexivity]. Qed.

Example purchase_exactly_10_dollars :
  exists r,
    purchase {[ "song_ids" := JList [4; 5] ]} 7 purchase_db
      = (mkResponse HTTP_200_OK (Purchased r), purchase_db) /\
    total_price r = float (Dec 1000 (-2)) /\
    gateway (payment_info r) = "ExpensivePaymentGateway".
Proof. eexists. split; [vm_compute; reflexivity | split; reflexivity]. Qed.

(** ** Playlists *)

Lemma elem_of_members (db : DB) (pk sid : Z) :
  sid ∈ members db pk <-> (pk, sid) ∈ playlist_songs db.
Proof.
  unfold members. rewrite elem_of_map. split.
  - intros ([p s] & -> & Hr). apply elem_of_filter in Hr as [Hp Hr].
    simpl in *. subst p. exact Hr.
  - intros Hr. exists (pk, sid). split; [reflexivity |].
    apply elem_of_filter. split; [reflexivity | exact Hr].
Qed.

(** The query of a playlist's songs answers its member songs. *)
Lemma songs_all_member_songs (db : DB) (pk : Z) :
  songs_all db pk = member_songs db pk.
Proof.
  unfold songs_all, member_songs. apply list_filter_iff.
  intros s. symmetry. apply elem_of_members.
Qed.

Lemma songs_all_ids (db : DB) (pk sid : Z) :
  db_wf db ->
  sid ∈ song_ids_of (songs_all db pk) <-> sid ∈ members db pk.
Proof.
  intros [_ Hfk]. rewrite elem_of_members.
  unfold song_ids_of, songs_all. rewrite list_elem_of_fmap. split.
  - intros (s & -> & Hs). apply list_elem_of_filter in Hs as [Hs _]. exact Hs.
  - intros Hr. pose proof (Hfk _ _ Hr) as Hin.
    unfold song_ids_of in Hin. apply list_elem_of_fmap in Hin as (s & -> & Hs).
    exists s. split; [reflexivity |]. apply list_elem_of_filter. auto.
Qed.

(** A well-formed store holds one song for each member of a playlist. *)
Lemma songs_all_length (db : DB) (pk : Z) :
  db_wf db -> length (songs_all db pk) = size (members db pk).
Proof.
  intros Hwf. unfold size, set_size. simpl.
  rewrite <- (length_fmap Song.id). apply Permutation_length.
  apply NoDup_Permutation.
  - destruct Hwf as [Hkeys _].
    refine (sublist_NoDup _ _ Hkeys _).
    apply fmap_sublist, sublist_filter.
  - apply NoDup_elements.
  - intros sid. rewrite elem_of_elements. apply songs_all_ids. exact Hwf.
Qed.

(** C10.  The total duration of a playlist is the sum of the lengths of its
    member songs, an integer; its total price is the exact sum of their
    prices, a decimal of two places; for a playlist without members they are
    0 and 0.00.  Both are functions of the store: they answer for every
    playlist and leave no store behind. *)
Theorem playlist_totals (db : DB) (pk : Z) :
  prices_in_range db ->
  get_total_duration db pk = Zsum (Song.length <$> member_songs db pk) /\
  exp (get_total_price db pk) = -2 /\
  (dec_value (get_total_price db pk) ==
     Qsum (dec_value <$> (Song.price <$> member_songs db pk)))%Q /\
  (members db pk = ∅ ->
     get_total_duration db pk = 0 /\ get_total_price db pk = Dec 0 (-2)).
Proof.
  intros Hrange. unfold get_total_duration, get_total_price.
  rewrite songs_all_member_songs.
  split; [apply sum_int_Zsum |].
  destruct (sum_prices_exact db (member_songs db pk) Hrange) as [Hexp Hval].
  { apply sublist_filter. }
  split; [exact Hexp |]. split; [exact Hval |].
  intros Hempty.
  assert (member_songs db pk = []) as ->.
  { unfold member_songs. rewrite Hempty.
    induction (song_table db) as [| s l IH]; [reflexivity |].
    rewrite filter_cons_False; [exact IH | apply not_elem_of_empty]. }
  split; reflexivity.
Qed.

Lemma shuffle_db_wf : db_wf shuffle_db.
Proof.
  split.
  - apply (bool_decide_unpack _). vm_compute. exact I.
  - intros pk sid.
    apply (bool_decide_unpack
             (set_Forall
                (fun r : Z * Z => r.2 ∈ song_ids_of (song_table shuffle_db))
                (playlist_songs shuffle_db))).
    vm_compute. exact I.
Qed.

Lemma shuffle_db_prices : prices_in_range shuffle_db.
Proof.
  split.
  - repeat constructor.
  - vm_compute. discriminate.
Qed.

Lemma playlist_totals_witness :
  prices_in_range shuffle_db /\
  get_total_duration shuffle_db 1
    = Zsum (Song.length <$> member_songs shuffle_db 1) /\
  exp (get_total_price shuffle_db 1) = -2 /\
  Qeq (dec_value (get_total_price shuffle_db 1))
      (Qsum (dec_value <$> (Song.price <$> member_songs shuffle_db 1))) /\
  (members shuffle_db 1 = ∅ ->
     get_total_duration shuffle_db 1 = 0 /\
     get_total_price shuffle_db 1 = Dec 0 (-2)).
Proof.
  split; [exact shuffle_db_prices |].
  apply (playlist_totals shuffle_db 1). exact shuffle_db_prices.
Defined.

(** The totals of the playlists of the tests. *)
Example totals_of_five_songs :
  get_total_duration shuffle_db 1 = 1100 /\
  get_total_price shuffle_db 1 = Dec 1995 (-2).
Proof. split; vm_compute; reflexivity. Qed.

Example totals_of_empty_playlist :
  get_total_duration shuffle_db 3 = 0 /\
  get_total_price shuffle_db 3 = Dec 0 (-2).
Proof. split; vm_compute; reflexivity. Qed.

(** ** Shuffle *)

Section Swap.
Context {A : Type}.
Implicit Types (x : list A) (a b : A) (i j : nat).

(** Overwriting one position trades the old element for the new one. *)
Lemma insert_trade x i a b :
  x !! i = Some a -> a :: <[i := b]> x ≡ₚ b :: x.
Proof.
  revert i. induction x as [| c x IH]; intros [| i] Hi; simpl in *;
    try discriminate.
  - injection Hi as ->. apply Permutation_swap.
  - rewrite (Permutation_swap c a), (IH i Hi). apply Permutation_swap.
Qed.

Lemma swap_Permutation x i j : swap x i j ≡ₚ x.
Proof.
  unfold swap.
  destruct (x !! i) as [a |] eqn:Hi; [| reflexivity].
  destruct (x !! j) as [b |] eqn:Hj; [| reflexivity].
  destruct (decide (i = j)) as [-> | Hne].
  - assert (a = b) as -> by congruence.
    rewrite (list_insert_id x j b Hi). rewrite (list_insert_id x j b Hi).
    reflexivity.
  - apply (Permutation_cons_inv (a := b)).
    rewrite insert_trade.
    + apply insert_trade. exact Hi.
    + rewrite list_lookup_insert_ne by exact Hne. exact Hj.
Qed.

Lemma shuffle_from_Permutation (rng : nat -> nat) i x :
  shuffle_from rng i x ≡ₚ x.
Proof.
  revert x. induction i as [| i IH]; intros x; simpl.
  - reflexivity.
  - rewrite IH. apply swap_Permutation.
Qed.

(** Whatever the generator draws, the shuffled list is a rearrangement of
    the list given. *)
Lemma random_shuffle_Permutation (rng : nat -> nat) x :
  random_shuffle rng x ≡ₚ x.
Proof. apply shuffle_from_Permutation. Qed.
End Swap.

Lemma members_songs_set (pk : Z) (objs : list Song.t) (db : DB) :
  members (songs_set pk objs db) pk = list_to_set (song_ids_of objs).
Proof.
  apply set_eq. intros sid.
  rewrite elem_of_members. unfold songs_set. simpl.
  rewrite elem_of_union, elem_of_filter, !elem_of_list_to_set,
    list_elem_of_fmap.
  simpl. split.
  - intros [[[Hne | Hin] _] | (sid' & [= <-] & Hin)]; congruence.
  - intros Hin. right. exists sid. auto.
Qed.

(** Clearing the rows of a playlist and setting them to a rearrangement of
    its songs gives back the table of rows there was. *)
Lemma clear_set_rows (pk : Z) (songs : list Song.t) (db : DB) :
  db_wf db -> songs ≡ₚ songs_all db pk ->
  songs_set pk songs (songs_clear pk db) = db.
Proof.
  intros Hwf Hperm. destruct db as [st pt rows].
  unfold songs_set, songs_clear. simpl. f_equal.
  apply set_eq. intros [p sid].
  rewrite elem_of_union, !elem_of_filter, elem_of_list_to_set,
    list_elem_of_fmap. simpl.
  assert (forall sid', sid' ∈ song_ids_of songs <-> (pk, sid') ∈ rows)
    as Hids.
  { intros sid'. unfold song_ids_of. rewrite Hperm.
    rewrite (songs_all_ids _ pk sid' Hwf). apply elem_of_members. }
  split.
  - intros [(_ & Hp & Hr) | (sid' & [= -> ->] & Hin)].
    + exact Hr.
    + apply Hids. exact Hin.
  - intros Hr. destruct (decide (p = pk)) as [-> | Hne].
    + right. exists sid. split; [reflexivity |]. apply Hids. exact Hr.
    + left. auto.
Qed.

(** C8.  For an existing playlist the shuffle answers 200 and the playlist
    has the members it had.  With fewer than two songs the store is left as
    it was and the answer is the message that no shuffle is needed; with two
    or more songs the rows of the playlist are cleared and set to a
    rearrangement of its member songs. *)
Theorem shuffle_preserves_members (pk : Z) (rng : nat -> nat) (db : DB)
    (playlist : Playlist.t) :
  db_wf db -> playlist_table db !! pk = Some playlist ->
  let resp := (shuffle pk rng db).1 in
  let db' := (shuffle pk rng db).2 in
  status_code resp = HTTP_200_OK /\
  members db' pk = members db pk /\
  ((size (members db pk) < 2)%nat ->
     db' = db /\
     body resp = Shuffled {|
       s_message := "Playlist has fewer than 2 songs, no shuffle needed";
       s_playlist := None |}) /\
  ((2 <= size (members db pk))%nat ->
     exists shuffled,
       shuffled ≡ₚ member_songs db pk /\
       db' = songs_set pk shuffled (songs_clear pk db) /\
       members db' pk = list_to_set (song_ids_of shuffled)).
Proof.
  intros Hwf Hpl. unfold shuffle. rewrite Hpl.
  rewrite (songs_all_length db pk Hwf).
  pose proof (random_shuffle_Permutation rng (songs_all db pk)) as Hperm.
  pose proof (clear_set_rows pk _ db Hwf Hperm) as Hrows.
  destruct (Nat.ltb_spec (size (members db pk)) 2) as [Hlt | Hge]; simpl.
  - split; [reflexivity |]. split; [reflexivity |].
    split; [auto | lia].
  - split; [reflexivity |]. split; [rewrite Hrows; reflexivity |].
    split; [lia |]. intros _.
    exists (random_shuffle rng (songs_all db pk)).
    split; [rewrite <- songs_all_member_songs; exact Hperm |].
    split; [reflexivity | apply members_songs_set].
Qed.

Lemma shuffle_preserves_members_witness :
  db_wf shuffle_db /\
  playlist_table shuffle_db !! 1 = Some (Playlist.mk "Shuffle Playlist" 10 10)
  /\
  let resp := (shuffle 1 (fun i => (3 * i + 1)%nat) shuffle_db).1 in
  let db' := (shuffle 1 (fun i => (3 * i + 1)%nat) shuffle_db).2 in
  status_code resp = HTTP_200_OK /\
  members db' 1 = members shuffle_db 1 /\
  ((size (members shuffle_db 1) < 2)%nat ->
     db' = shuffle_db /\
     body resp = Shuffled {|
       s_message := "Playlist has fewer than 2 songs, no shuffle needed";
       s_playlist := None |}) /\
  ((2 <= size (members shuffle_db 1))%nat ->
     exists shuffled,
       shuffled ≡ₚ member_songs shuffle_db 1 /\
       db' = songs_set 1 shuffled (songs_clear 1 shuffle_db) /\
       members db' 1 = list_to_set (song_ids_of shuffled)).
Proof.
  split; [exact shuffle_db_wf |]. split; [reflexivity |].
  apply (shuffle_preserves_members 1 (fun i => (3 * i + 1)%nat)
           shuffle_db (Playlist.mk "Shuffle Playlist" 10 10)).
  - exact shuffle_db_wf.
  - reflexivity.
Defined.

(** The shuffles of the tests: five songs are rearranged, the store keeps
    its rows; a single song and no song are left alone. *)
Example shuffle_five_songs :
  song_ids_of (random_shuffle (fun i => (3 * i + 1)%nat)
                 (songs_all shuffle_db 1)) = [1; 5; 4; 3; 2] /\
  (shuffle 1 (fun i => (3 * i + 1)%nat) shuffle_db).2 = shuffle_db.
Proof.
  split; [vm_compute; reflexivity |].
  unfold shuffle. simpl. apply clear_set_rows; [exact shuffle_db_wf |].
  apply random_shuffle_Permutation.
Qed.

(** C9, as the specification has it, fails on the empty playlist of
    [test_shuffle_empty_playlist]: the answer is 200 and has the message, and
    no representation of the playlist. *)
Lemma shuffle_empty_playlist_message_only :
  playlist_table shuffle_db !! 3 = Some (Playlist.mk "Empty Playlist" 12 12)
  /\
  (shuffle 3 (fun _ => 0%nat) shuffle_db).1 =
    mkResponse HTTP_200_OK
      (Shuffled {|
         s_message := "Playlist has fewer than 2 songs, no shuffle needed";
         s_playlist := None |}).
Proof. split; vm_compute; reflexivity. Qed.

(** C9, amended.  For an existing playlist the shuffle answers 200 with a
    message.  With two or more songs the answer also has the representation
    of the playlist, read from the store the shuffle leaves, its two totals
    computed on that store; with fewer than two songs the answer has the
    message alone. *)
Theorem shuffle_response (pk : Z) (rng : nat -> nat) (db : DB)
    (playlist : Playlist.t) :
  db_wf db -> playlist_table db !! pk = Some playlist ->
  let resp := (shuffle pk rng db).1 in
  let db' := (shuffle pk rng db).2 in
  status_code resp = HTTP_200_OK /\
  exists d,
    body resp = Shuffled d /\
    ((size (members db pk) < 2)%nat ->
       s_message d = "Playlist has fewer than 2 songs, no shuffle needed" /\
       s_playlist d = None) /\
    ((2 <= size (members db pk))%nat ->
       s_message d = "Playlist shuffled successfully" /\
       exists pd,
         s_playlist d = Some pd /\
         pd = PlaylistSerializer db' pk playlist /\
         pd_total_duration pd = get_total_duration db' pk /\
         pd_total_price pd = float (get_total_price db' pk)).
Proof.
  intros Hwf Hpl. unfold shuffle. rewrite Hpl.
  rewrite (songs_all_length db pk Hwf).
  destruct (Nat.ltb_spec (size (members db pk)) 2) as [Hlt | Hge]; simpl.
  - split; [reflexivity |]. eexists. split; [reflexivity |]. simpl.
    split; [auto | lia].
  - split; [reflexivity |]. eexists. split; [reflexivity |]. simpl.
    split; [lia |]. intros _. split; [reflexivity |].
    eexists. split; [reflexivity |]. repeat split.
Qed.

Lemma shuffle_response_witness :
  db_wf shuffle_db /\
  playlist_table shuffle_db !! 1 = Some (Playlist.mk "Shuffle Playlist" 10 10)
  /\
  let resp := (shuffle 1 (fun i => (3 * i + 1)%nat) shuffle_db).1 in
  let db' := (shuffle 1 (fun i => (3 * i + 1)%nat) shuffle_db).2 in
  status_code resp = HTTP_200_OK /\
  exists d,
    body resp = Shuffled d /\
    ((size (members shuffle_db 1) < 2)%nat ->
       s_message d = "Playlist has fewer than 2 songs, no shuffle needed" /\
       s_playlist d = None) /\
    ((2 <= size (members shuffle_db 1))%nat ->
       s_message d = "Playlist shuffled successfully" /\
       exists pd,
         s_playlist d = Some pd /\
         pd = PlaylistSerializer db' 1 (Playlist.mk "Shuffle Playlist" 10 10)
         /\
         pd_total_duration pd = get_total_duration db' 1 /\
         pd_total_price pd = float (get_total_price db' 1)).
Proof.
  split; [exact shuffle_db_wf |]. split; [reflexivity |].
  apply (shuffle_response 1 (fun i => (3 * i + 1)%nat)
           shuffle_db (Playlist.mk "Shuffle Playlist" 10 10)).
  - exact shuffle_db_wf.
  - reflexivity.
Defined.

(** The answer to the shuffle of the five songs: the representation lists the
    songs in the order of the song table, with the totals of the playlist. *)
Example shuffle_five_songs_response :
  exists pd,
    body (shuffle 1 (fun i => (3 * i + 1)%nat) shuffle_db).1 =
      Shuffled {| s_message := "Playlist shuffled successfully";
                  s_playlist := Some pd |} /\
    sd_id <$> pd_songs pd = [5; 4; 3; 2; 1] /\
    pd_total_duration pd = 1100 /\
    pd_total_price pd = float (Dec 1995 (-2)).
Proof.
  eexists. split; [reflexivity |]. split; vm_compute; auto.
Qed.

(** * Further properties *)

(** ** Gateways and transaction identifiers *)

(** A gateway accepts an amount in range exactly when it is the gateway the
    selector answers for that amount: the two price bands share no amount
    and, among the amounts in range, leave none out. *)
Theorem accepting_gateway_is_selected (g : PaymentGateway) (obj_id : Z)
    (a : Decimal) (ids : list Z) :
  amount_in_range a ->
  (exists r, process_payment g obj_id a ids = Return r) <->
  g = get_payment_gateway a.
Proof.
  intros _. unfold get_payment_gateway. rewrite dec_ge_lt.
  destruct g; simpl;
    unfold cheap_process_payment, expensive_process_payment;
    rewrite ?dec_ge_lt; destruct (dec_lt a ten); simpl; split;
    try reflexivity; try discriminate;
    try (intros [r Hr]; discriminate); intros _; eexists; reflexivity.
Qed.

Lemma accepting_gateway_is_selected_witness :
  amount_in_range (Dec 999 (-2)) /\
  ((exists r,
      process_payment CheapPaymentGateway 7 (Dec 999 (-2)) [1; 2] = Return r)
   <-> CheapPaymentGateway = get_payment_gateway (Dec 999 (-2))).
Proof.
  split; [exact amount_999_in_range |].
  apply (accepting_gateway_is_selected CheapPaymentGateway 7 (Dec 999 (-2))
           [1; 2]).
  exact amount_999_in_range.
Defined.

(** The result of a payment tells the band of the amount: the key
    [premium_features] is present, and true, exactly in the results for
    amounts of 10.00 and more, which name the premium gateway. *)
Theorem result_tells_band (g : PaymentGateway) (obj_id : Z) (a : Decimal)
    (ids : list Z) (r : TransactionResult) :
  process_payment g obj_id a ids = Return r ->
  (premium_features r = Some true /\
   gateway r = "ExpensivePaymentGateway" /\ (10 <= dec_value a)%Q) \/
  (premium_features r = None /\
   gateway r = "CheapPaymentGateway" /\ (dec_value a < 10)%Q).
Proof.
  rewrite <- dec_value_ten, <- dec_lt_value, <- dec_ge_value, dec_ge_lt.
  destruct g; simpl;
    unfold cheap_process_payment, expensive_process_payment;
    rewrite ?dec_ge_lt; destruct (dec_lt a ten); simpl;
    try discriminate; intros [= <-]; simpl; auto.
Qed.

Lemma result_tells_band_witness :
  exists r,
    process_payment ExpensivePaymentGateway 7 (Dec 1900 (-2)) [1; 2; 3]
      = Return r /\
    ((premium_features r = Some true /\
      gateway r = "ExpensivePaymentGateway" /\
      Qle 10 (dec_value (Dec 1900 (-2)))) \/
     (premium_features r = None /\
      gateway r = "CheapPaymentGateway" /\
      Qlt (dec_value (Dec 1900 (-2))) 10)).
Proof.
  eexists. split; [reflexivity |].
  apply (result_tells_band ExpensivePaymentGateway 7 (Dec 1900 (-2))
           [1; 2; 3]).
  reflexivity.
Defined.

Lemma pretty_N_go_no_dash (x : N) (s : string) :
  no_dash s -> no_dash (pretty_N_go x s).
Proof.
  revert s. induction (N.lt_wf_0 x) as [x _ IH]. intros s Hs.
  destruct (decide (x = 0)%N) as [-> | Hx].
  - rewrite pretty_N_go_0. exact Hs.
  - rewrite pretty_N_go_step by lia. apply IH.
    + apply N.div_lt; lia.
    + split; [| exact Hs].
      unfold pretty_N_char. repeat case_match; discriminate.
Qed.

(** The numeral of a number that is not negative has no sign. *)
Lemma pretty_no_dash (z : Z) : 0 <= z -> no_dash (pretty z).
Proof.
  intros Hz. destruct z as [| p | p]; [| | lia].
  - simpl. split; [discriminate | exact I].
  - change (pretty (Z.pos p)) with (pretty (N.pos p)).
    unfold pretty, pretty_N. case_decide; [discriminate |].
    apply pretty_N_go_no_dash. exact I.
Qed.

(** A string is cut at its first [-] in one way only. *)
Lemma split_at_dash (s1 s2 t1 t2 : string) :
  no_dash s1 -> no_dash s2 ->
  s1 +:+ String "-" t1 = s2 +:+ String "-" t2 -> s1 = s2 /\ t1 = t2.
Proof.
  revert s2. induction s1 as [| c s1 IH]; intros [| d s2]; simpl.
  - intros _ _ [= ->]. auto.
  - intros _ [Hd _] [= <- _]. congruence.
  - intros [Hc _] _ [= -> _]. congruence.
  - intros [_ H1] [_ H2] [= -> Heq].
    destruct (IH s2 H1 H2 Heq) as [-> ->]. auto.
Qed.

(** Two payments get the same transaction identifier exactly when they go
    through the same gateway, see the same object identity and have amounts
    that agree in whole cents.  Identities are addresses and not negative. *)
Theorem transaction_id_collision (g1 g2 : PaymentGateway) (o1 o2 : Z)
    (a1 a2 : Decimal) (ids1 ids2 : list Z) (r1 r2 : TransactionResult) :
  0 <= o1 -> 0 <= o2 ->
  process_payment g1 o1 a1 ids1 = Return r1 ->
  process_payment g2 o2 a2 ids2 = Return r2 ->
  transaction_id r1 = transaction_id r2 <->
  g1 = g2 /\ o1 = o2 /\
  dec_int (dec_mul a1 (Dec 100 0)) = dec_int (dec_mul a2 (Dec 100 0)).
Proof.
  intros Ho1 Ho2 H1 H2.
  assert (forall t1 t2 : string,
            pretty o1 +:+ String "-" t1 = pretty o2 +:+ String "-" t2 ->
            o1 = o2 /\ t1 = t2) as Hcut.
  { intros t1 t2 Heq.
    apply split_at_dash in Heq as [Ho Ht]; try (apply pretty_no_dash; lia).
    split; [apply (inj pretty); exact Ho | exact Ht]. }
  destruct g1, g2; simpl in H1, H2;
    unfold cheap_process_payment, expensive_process_payment in H1, H2;
    destruct (dec_ge a1 ten), (dec_lt a1 ten), (dec_ge a2 ten),
      (dec_lt a2 ten); try discriminate;
    injection H1 as <-; injection H2 as <-; cbn [transaction_id];
    (split; [intros Heq | intros (Hg & -> & ->); try discriminate;
                          reflexivity]);
    simpl in Heq; try discriminate;
    injection Heq as Heq; apply Hcut in Heq as [-> Hk];
    apply (inj pretty) in Hk; auto.
Qed.

Lemma transaction_id_collision_witness :
  exists r1 r2,
    0 <= 41 /\ 0 <= 42 /\
    process_payment CheapPaymentGateway 41 (Dec 500 (-2)) [1] = Return r1 /\
    process_payment CheapPaymentGateway 42 (Dec 500 (-2)) [1] = Return r2 /\
    (transaction_id r1 = transaction_id r2 <->
     CheapPaymentGateway = CheapPaymentGateway /\ 41 = 42 /\
     dec_int (dec_mul (Dec 500 (-2)) (Dec 100 0))
       = dec_int (dec_mul (Dec 500 (-2)) (Dec 100 0))).
Proof.
  do 2 eexists. split; [lia |]. split; [lia |].
  split; [reflexivity |]. split; [reflexivity |].
  apply (transaction_id_collision CheapPaymentGateway CheapPaymentGateway
           41 42 (Dec 500 (-2)) (Dec 500 (-2)) [1] [1]);
    [lia | lia | reflexivity | reflexivity].
Defined.

(** For an amount of two decimal places and fewer than 26 digits the
    transaction identifier reads: the tag of the gateway, the object
    identity, the amount in cents. *)
Theorem transaction_id_cents (g : PaymentGateway) (obj_id c : Z)
    (ids : list Z) (r : TransactionResult) :
  Z.abs c < 10 ^ 26 ->
  process_payment g obj_id (Dec c (-2)) ids = Return r ->
  transaction_id r =
    (match g with
     | CheapPaymentGateway => "CHEAP-"
     | ExpensivePaymentGateway => "EXP-"
     end) +:+ pretty obj_id +:+ "-" +:+ pretty c.
Proof.
  intros Hc Hr.
  assert (dec_int (dec_mul (Dec c (-2)) (Dec 100 0)) = c) as Hcents.
  { unfold dec_mul. cbn [coef exp]. rewrite dec_fix_small.
    - unfold dec_int. cbn [coef exp]. simpl (0 <=? -2 + 0).
      cbv iota. change (10 ^ (- (-2 + 0))) with 100.
      apply Z.quot_mul. discriminate.
    - cbn [coef]. unfold prec.
      change (10 ^ 26) with 100000000000000000000000000 in Hc.
      change (10 ^ 28) with 10000000000000000000000000000. lia. }
  destruct g; simpl in Hr;
    unfold cheap_process_payment, expensive_process_payment in Hr;
    [destruct (dec_ge (Dec c (-2)) ten) | destruct (dec_lt (Dec c (-2)) ten)];
    try discriminate; injection Hr as <-; cbn [transaction_id];
    rewrite Hcents; reflexivity.
Qed.

Lemma transaction_id_cents_witness :
  exists r,
    Z.abs 1995 < 10 ^ 26 /\
    process_payment ExpensivePaymentGateway 42 (Dec 1995 (-2)) [1; 2] = Return r
    /\ transaction_id r = "EXP-" +:+ pretty 42 +:+ "-" +:+ pretty 1995.
Proof.
  eexists. split; [reflexivity |]. split; [reflexivity |].
  apply (transaction_id_cents ExpensivePaymentGateway 42 1995 [1; 2]);
    reflexivity.
Defined.

(** ** The purchase view *)




(** Which of the two messages a rejected request gets: the first for every
    value Python counts as false (no key, null, false, 0, the empty string,
    list or object), the second for every other value that is no list. *)
Theorem purchase_validation_messages (data : gmap string json) (obj_id : Z)
    (db : DB) :
  let v := default (JList []) (data !! "song_ids") in
  (purchase data obj_id db =
     (mkResponse HTTP_400_BAD_REQUEST
        (Error (Msg "Please provide song_ids list")), db)
   <-> truthy v = false) /\
  (purchase data obj_id db =
     (mkResponse HTTP_400_BAD_REQUEST
        (Error (Msg "song_ids must be a list")), db)
   <-> truthy v = true /\ forall ids, v <> JList ids).
Proof.
  unfold purchase. cbv zeta.
  destruct (default (JList []) (data !! "song_ids")) as
    [| b | n | s | ids | fields] eqn:Hv;
    destruct (truthy _) eqn:Ht; simpl;
    try (split; split; solve
           [ reflexivity | discriminate | intros [H _]; discriminate
           | intros _; split; [reflexivity | discriminate] ]).
  destruct (negb _).
  - split; split; try discriminate. intros [_ H]. exfalso. eapply H.
    reflexivity.
  - destruct (process_payment _ _ _ _) as [[e] | pr];
      (split; split; try discriminate; intros [_ H]; exfalso; eapply H;
       reflexivity).
Qed.

Lemma filter_id_in_Permutation (ids ids' : list Z) (db : DB) :
  ids ≡ₚ ids' -> filter_id_in ids db = filter_id_in ids' db.
Proof.
  intros Hperm. unfold filter_id_in. apply list_filter_iff.
  intros s. rewrite Hperm. reflexivity.
Qed.

Lemma SongSerializer_ids (songs : list Song.t) :
  sd_id <$> (SongSerializer <$> songs) = song_ids_of songs.
Proof.
  unfold song_ids_of. rewrite <- list_fmap_compose. reflexivity.
Qed.

(** The order in which a request names the songs changes neither the status
    nor, in a successful answer, the total, the purchased songs, the gateway
    and the amount charged; the payment result echoes the list as the
    request had it.  The two requests are separate calls, each with the
    object identity the interpreter gives it. *)
Theorem purchase_permuted_ids (ids ids' : list Z) (obj_id obj_id' : Z)
    (db : DB) :
  ids ≡ₚ ids' ->
  let resp := (purchase {[ "song_ids" := JList ids ]} obj_id db).1 in
  let resp' := (purchase {[ "song_ids" := JList ids' ]} obj_id' db).1 in
  status_code resp' = status_code resp /\
  (forall r, body resp = Purchased r ->
     exists r',
       body resp' = Purchased r' /\
       total_price r' = total_price r /\
       songs_purchased r' = songs_purchased r /\
       gateway (payment_info r') = gateway (payment_info r) /\
       amount (payment_info r') = amount (payment_info r) /\
       song_ids (payment_info r) = ids /\
       song_ids (payment_info r') = ids').
Proof.
  intros Hperm.
  destruct ids as [| sid ids].
  { apply Permutation_nil_l in Hperm. subst ids'. cbv zeta.
    split; [reflexivity |]. intros r [=]. }
  assert (ids' ≠ []) as Hne'.
  { intros ->. apply Permutation_nil_r in Hperm. discriminate. }
  cbv zeta.
  rewrite (purchase_list _ (sid :: ids) obj_id db (lookup_singleton_eq _ _))
    by discriminate.
  rewrite (purchase_list _ ids' obj_id' db (lookup_singleton_eq _ _))
    by exact Hne'.
  cbv zeta.
  rewrite <- (filter_id_in_Permutation _ _ db Hperm).
  rewrite <- (Permutation_length Hperm).
  destruct (negb _); simpl.
  - split; [reflexivity |]. intros r [=].
  - set (total := sum_decimal _ _).
    destruct (selected_gateway_returns obj_id total (sid :: ids))
      as (pr & Hpr & Hc).
    destruct (selected_gateway_returns obj_id' total ids')
      as (pr' & Hpr' & Hc').
    rewrite Hpr, Hpr'. simpl.
    split; [reflexivity |].
    intros r [= <-]. eexists. split; [reflexivity |]. simpl.
    destruct Hc as (_ & _ & Hg & Ha & Hids), Hc' as (_ & _ & Hg' & Ha' & Hids').
    repeat split; congruence.
Qed.

Lemma purchase_permuted_ids_witness :
  [1; 2] ≡ₚ [2; 1] /\
  let resp := (purchase {[ "song_ids" := JList [1; 2] ]} 41 purchase_db).1 in
  let resp' := (purchase {[ "song_ids" := JList [2; 1] ]} 42 purchase_db).1 in
  status_code resp' = status_code resp /\
  (forall r, body resp = Purchased r ->
     exists r',
       body resp' = Purchased r' /\
       total_price r' = total_price r /\
       songs_purchased r' = songs_purchased r /\
       gateway (payment_info r') = gateway (payment_info r) /\
       amount (payment_info r') = amount (payment_info r) /\
       song_ids (payment_info r) = [1; 2] /\
       song_ids (payment_info r') = [2; 1]).
Proof.
  assert ([1; 2] ≡ₚ [2; 1]) as Hperm by apply Permutation_swap.
  split; [exact Hperm |].
  apply (purchase_permuted_ids [1; 2] [2; 1] 41 42 purchase_db). exact Hperm.
Defined.

(** What a successful answer holds: the purchased songs are the requested
    ones, each once, listed in the order of the song table and not in the
    order of the request; the payment result echoes the request's list and
    charges the total of the answer. *)
Theorem purchase_answer_shape (ids : list Z) (obj_id : Z) (db : DB)
    (r : PurchaseData) :
  db_wf db ->
  body (purchase {[ "song_ids" := JList ids ]} obj_id db).1 = Purchased r ->
  sd_id <$> songs_purchased r ≡ₚ ids /\
  sd_id <$> songs_purchased r `sublist_of` song_ids_of (song_table db) /\
  amount (payment_info r) = total_price r /\
  song_ids (payment_info r) = ids /\
  (purchase {[ "song_ids" := JList ids ]} obj_id db).2 = db.
Proof.
  intros [Hkeys _].
  destruct ids as [| sid ids]; [intros [=] |].
  rewrite (purchase_list _ (sid :: ids) obj_id db (lookup_singleton_eq _ _))
    by discriminate.
  cbv zeta. set (songs := filter_id_in (sid :: ids) db).
  pose proof (filter_id_in_length (sid :: ids) db Hkeys) as Hlen.
  fold songs in Hlen.
  destruct (Nat.eqb_spec (length songs) (length (sid :: ids)))
    as [Heq | Hneq]; simpl; [| intros [=]].
  destruct (selected_gateway_returns obj_id
              (sum_decimal (Song.price <$> songs) (Dec 0 (-2))) (sid :: ids))
    as (pr & -> & (_ & _ & _ & Hamount & Hids)).
  simpl. intros [= <-]. simpl. rewrite SongSerializer_ids.
  apply Hlen in Heq as [Hnd Hall].
  split.
  { apply NoDup_Permutation; [apply filter_id_in_NoDup; exact Hkeys | exact Hnd |].
    intros x. unfold songs. rewrite filter_id_in_ids. split; [tauto | auto]. }
  split.
  { unfold song_ids_of, songs, filter_id_in.
    apply fmap_sublist, sublist_filter. }
  auto.
Qed.

Lemma purchase_answer_shape_witness :
  exists r,
    db_wf purchase_db /\
    body (purchase {[ "song_ids" := JList [1; 3] ]} 7 purchase_db).1
      = Purchased r /\
    sd_id <$> songs_purchased r ≡ₚ [1; 3] /\
    sd_id <$> songs_purchased r
      `sublist_of` song_ids_of (song_table purchase_db) /\
    amount (payment_info r) = total_price r /\
    song_ids (payment_info r) = [1; 3] /\
    (purchase {[ "song_ids" := JList [1; 3] ]} 7 purchase_db).2 = purchase_db.
Proof.
  eexists. split; [exact purchase_db_wf |].
  assert (body (purchase {[ "song_ids" := JList [1; 3] ]} 7 purchase_db).1
          = Purchased _) as Hbody by (vm_compute; reflexivity).
  split; [exact Hbody |].
  exact (purchase_answer_shape [1; 3] 7 purchase_db _ purchase_db_wf Hbody).
Defined.

(** The songs come back most recent first, whatever the request's order. *)
Example purchase_answer_order :
  exists r,
    body (purchase {[ "song_ids" := JList [1; 3] ]} 7 purchase_db).1
      = Purchased r /\
    sd_id <$> songs_purchased r = [3; 1].
Proof. eexists. split; [vm_compute; reflexivity | reflexivity]. Qed.

(** ** Playlists: representation, purchase and shuffle together *)




(** The representation of a playlist is consistent in itself: it lists one
    song for each member, its total duration is the sum of the lengths it
    lists and its total price the exact sum of the prices it lists. *)
Theorem playlist_representation_consistent (db : DB) (pk : Z)
    (playlist : Playlist.t) :
  db_wf db -> prices_in_range db ->
  let pd := PlaylistSerializer db pk playlist in
  length (pd_songs pd) = size (members db pk) /\
  pd_total_duration pd = Zsum (sd_length <$> pd_songs pd) /\
  exists total,
    pd_total_price pd = float total /\ exp total = -2 /\
    (dec_value total == Qsum (dec_value <$> (sd_price <$> pd_songs pd)))%Q.
Proof.
  intros Hwf Hrange. cbv zeta. unfold PlaylistSerializer. simpl.
  rewrite length_fmap, (songs_all_length db pk Hwf).
  split; [reflexivity |].
  rewrite <- !list_fmap_compose.
  split; [apply sum_int_Zsum |].
  exists (get_total_price db pk). split; [reflexivity |].
  destruct (sum_prices_exact db (songs_all db pk) Hrange) as [Hexp Hval].
  { apply sublist_filter. }
  split; [exact Hexp |].
  rewrite <- list_fmap_compose in Hval. exact Hval.
Qed.

Lemma playlist_representation_consistent_witness :
  db_wf shuffle_db /\ prices_in_range shuffle_db /\
  let pd :=
    PlaylistSerializer shuffle_db 1 (Playlist.mk "Shuffle Playlist" 10 10) in
  length (pd_songs pd) = size (members shuffle_db 1) /\
  pd_total_duration pd = Zsum (sd_length <$> pd_songs pd) /\
  exists total,
    pd_total_price pd = float total /\ exp total = -2 /\
    Qeq (dec_value total) (Qsum (dec_value <$> (sd_price <$> pd_songs pd))).
Proof.
  split; [exact shuffle_db_wf |]. split; [exact shuffle_db_prices |].
  apply (playlist_representation_consistent shuffle_db 1).
  - exact shuffle_db_wf.
  - exact shuffle_db_prices.
Defined.

(** A shuffle leaves the store exactly as it found it, and its answer does
    not depend on what the random generator draws: for two or more songs it
    is the representation a plain read of the playlist gives, songs in the
    order of the song table. *)
Theorem shuffle_leaves_store (pk : Z) (rng rng' : nat -> nat) (db : DB) :
  db_wf db ->
  (shuffle pk rng db).2 = db /\
  shuffle pk rng' db = shuffle pk rng db /\
  (forall playlist,
     playlist_table db !! pk = Some playlist ->
     (2 <= size (members db pk))%nat ->
     body (shuffle pk rng db).1 =
       Shuffled {| s_message := "Playlist shuffled successfully";
                   s_playlist := Some (PlaylistSerializer db pk playlist) |}).
Proof.
  intros Hwf. unfold shuffle.
  pose proof (clear_set_rows pk _ db Hwf
                (random_shuffle_Permutation rng (songs_all db pk))) as Hrows.
  pose proof (clear_set_rows pk _ db Hwf
                (random_shuffle_Permutation rng' (songs_all db pk))) as Hrows'.
  rewrite (songs_all_length db pk Hwf).
  destruct (playlist_table db !! pk) as [playlist |].
  - destruct (Nat.ltb_spec (size (members db pk)) 2) as [Hlt | Hge]; simpl.
    + split; [reflexivity |]. split; [reflexivity |].
      intros playlist' _ Hsize. lia.
    + rewrite Hrows, Hrows'. split; [reflexivity |]. split; [reflexivity |].
      intros playlist' [= <-] _. reflexivity.
  - split; [reflexivity |]. split; [reflexivity |]. intros playlist' [=].
Qed.

Lemma shuffle_leaves_store_witness :
  db_wf shuffle_db /\
  (shuffle 1 (fun i => (3 * i + 1)%nat) shuffle_db).2 = shuffle_db /\
  shuffle 1 (fun _ => 0%nat) shuffle_db
    = shuffle 1 (fun i => (3 * i + 1)%nat) shuffle_db.
Proof.
  split; [exact shuffle_db_wf |].
  pose proof (shuffle_leaves_store 1 (fun i => (3 * i + 1)%nat)
                (fun _ => 0%nat) shuffle_db shuffle_db_wf) as H.
  destruct H as (Hstore & Hsame & _). split; [exact Hstore | exact Hsame].
Defined.

(** The shuffle answers 404 exactly for the keys of no stored playlist, and
    200 for all others; the 404 answer carries the detail of [NotFound]. *)
Theorem shuffle_not_found_iff (pk : Z) (rng : nat -> nat) (db : DB) :
  (playlist_table db !! pk = None <->
   shuffle pk rng db =
     (mkResponse HTTP_404_NOT_FOUND (Detail "Playlist not found"), db)) /\
  (is_Some (playlist_table db !! pk) <->
   status_code (shuffle pk rng db).1 = HTTP_200_OK).
Proof.
  unfold shuffle. destruct (playlist_table db !! pk) as [playlist |].
  - destruct (length _ <? 2)%nat; simpl;
      (split; split; try discriminate; eauto).
  - simpl. split; split; try discriminate; try reflexivity.
    intros [x Hx]. discriminate.
Qed.

(** ** The string of a song *)

(** The strings of the tests and of some decimals the library prints with an
    exponent. *)
Example song_string_representation :
  Song__str__ (mk_song 1 "Test Song 1" 180 499) = "Test Song 1 - $4.99".
Proof. vm_compute. reflexivity. Qed.

Example dec_str_examples :
  dec_str (Dec 5 (-2)) = "0.05" /\ dec_str (Dec (-1250) (-2)) = "-12.50" /\
  dec_str (Dec 1 1) = "1E+1" /\ dec_str (Dec 1 (-7)) = "1E-7" /\
  dec_str (Dec 123 (-8)) = "0.00000123" /\ dec_str (Dec 1234 2) = "1.234E+5".
Proof. repeat split; vm_compute; reflexivity. Qed.

Lemma string_app_nil_r (s : string) : s +:+ "" = s.
Proof.
  induction s as [| c s IH]; [reflexivity | exact (f_equal (String c) IH)].
Qed.

Lemma string_app_assoc (s t u : string) : (s +:+ t) +:+ u = s +:+ t +:+ u.
Proof.
  induction s as [| c s IH]; [reflexivity | exact (f_equal (String c) IH)].
Qed.

Lemma string_length_app (s t : string) :
  String.length (s +:+ t) = (String.length s + String.length t)%nat.
Proof.
  induction s as [| c s IH]; [reflexivity | exact (f_equal S IH)].
Qed.

Lemma substring_all (t : string) : String.substring 0 (String.length t) t = t.
Proof.
  induction t as [| c t IH]; [reflexivity | exact (f_equal (String c) IH)].
Qed.

Lemma substring_app_l (s t : string) :
  String.substring 0 (String.length s) (s +:+ t) = s.
Proof.
  induction s as [| c s IH].
  - destruct t; reflexivity.
  - exact (f_equal (String c) IH).
Qed.

Lemma substring_app_r (s t : string) :
  String.substring (String.length s) (String.length t) (s +:+ t) = t.
Proof.
  induction s as [| c s IH]; [apply substring_all | exact IH].
Qed.

Lemma pretty_N_go_app (x : N) (s : string) :
  pretty_N_go x s = pretty_N_go x "" +:+ s.
Proof.
  revert s. induction (N.lt_wf_0 x) as [x _ IH]. intros s.
  destruct (decide (x = 0)%N) as [-> | Hx].
  - rewrite !pretty_N_go_0. reflexivity.
  - rewrite !(pretty_N_go_step x) by lia.
    assert (x `div` 10 < x)%N as Hlt by (apply N.div_lt; lia).
    rewrite (IH _ Hlt (String _ s)), (IH _ Hlt (String _ "")).
    rewrite string_app_assoc. reflexivity.
Qed.

(** The numeral of a number of one digit, and of a number of more. *)
Lemma pretty_N_digit (n : N) :
  (n < 10)%N -> pretty n = String (pretty_N_char n) "".
Proof.
  intros Hn. unfold pretty, pretty_N. case_decide as H0; [subst; reflexivity |].
  rewrite pretty_N_go_step by lia.
  rewrite N.div_small, N.mod_small, pretty_N_go_0 by lia. reflexivity.
Qed.

Lemma pretty_N_last (n : N) :
  (10 <= n)%N ->
  pretty n = pretty (n `div` 10)%N +:+ String (pretty_N_char (n `mod` 10)) "".
Proof.
  intros Hn. unfold pretty, pretty_N.
  assert (0 < n `div` 10)%N by (apply N.div_str_pos; lia).
  repeat case_decide; try lia.
  rewrite pretty_N_go_step by lia. apply pretty_N_go_app.
Qed.

Lemma pretty_Z_of_N (n : N) : pretty (Z.of_N n) = pretty n.
Proof. destruct n; reflexivity. Qed.

Lemma pretty_Z_digit (z : Z) :
  0 <= z < 10 -> String.length (pretty z) = 1%nat.
Proof.
  intros Hz. rewrite <- (Z2N.id z), pretty_Z_of_N by lia.
  rewrite pretty_N_digit by lia. reflexivity.
Qed.

Lemma pretty_Z_last (z : Z) :
  10 <= z -> pretty z = pretty (z `div` 10) +:+ pretty (z `mod` 10).
Proof.
  intros Hz. rewrite <- (Z2N.id z) by lia. set (n := Z.to_N z).
  assert (10 <= n)%N by lia.
  change (Z.of_N n `div` 10) with (Z.of_N n `div` Z.of_N 10).
  change (Z.of_N n `mod` 10) with (Z.of_N n `mod` Z.of_N 10).
  rewrite <- (N2Z.inj_div n 10), <- (N2Z.inj_mod n 10), !pretty_Z_of_N.
  rewrite (pretty_N_digit (n `mod` 10)) by (apply N.mod_lt; lia).
  apply pretty_N_last. assumption.
Qed.

Lemma pretty_Z_nonempty (z : Z) : 0 <= z -> pretty z ≠ "".
Proof.
  intros Hz Hempty.
  destruct (Z_lt_le_dec z 10) as [Hlt | Hge].
  - pose proof (pretty_Z_digit z ltac:(lia)) as Hlen.
    rewrite Hempty in Hlen. discriminate.
  - pose proof (pretty_Z_digit (z `mod` 10) (Z.mod_pos_bound _ 10 eq_refl))
      as Hlen.
    rewrite (pretty_Z_last z Hge) in Hempty.
    apply (f_equal String.length) in Hempty.
    rewrite string_length_app, Hlen in Hempty. simpl in Hempty. lia.
Qed.

(** A decimal of two places with digits before the point is printed as
    these digits, the point, and the two last digits. *)
Lemma dec_str_point (c : Z) (P T : string) :
  0 <= c -> pretty c = P +:+ T -> String.length T = 2%nat -> P ≠ "" ->
  dec_str (Dec c (-2)) = P +:+ "." +:+ T.
Proof.
  intros Hc Hpretty HT HP. unfold dec_str. cbn [coef exp].
  rewrite Z.abs_eq, Hpretty, string_length_app, HT by exact Hc.
  set (k := String.length P).
  assert (1 <= k)%nat as Hk.
  { subst k. destruct P; [congruence | simpl; lia]. }
  replace (-2 + Z.of_nat (k + 2)) with (Z.of_nat k) by lia.
  destruct (Z.ltb_spec c 0) as [Hneg | _]; [lia |].
  destruct (Z.ltb_spec (-6) (Z.of_nat k)) as [_ | Hsmall]; [| lia].
  simpl andb. cbv iota.
  destruct (Z.leb_spec (Z.of_nat k) 0) as [Hle | _]; [lia |].
  destruct (Z.leb_spec (Z.of_nat (k + 2)) (Z.of_nat k)) as [Hle | _]; [lia |].
  rewrite Z.eqb_refl, Nat2Z.id.
  replace (Z.to_nat (Z.of_nat (k + 2) - Z.of_nat k)) with 2%nat by lia.
  subst k. rewrite substring_app_l, <- HT, substring_app_r.
  rewrite string_app_nil_r. reflexivity.
Qed.

Lemma dec_str_cents (c : Z) :
  0 <= c ->
  dec_str (Dec c (-2)) =
    pretty (c `div` 100) +:+ "." +:+ pretty ((c `div` 10) `mod` 10)
                         +:+ pretty (c `mod` 10).
Proof.
  intros Hc.
  pose proof (pretty_Z_digit (c `mod` 10) (Z.mod_pos_bound _ 10 eq_refl))
    as H0.
  pose proof (pretty_Z_digit ((c `div` 10) `mod` 10)
                (Z.mod_pos_bound _ 10 eq_refl)) as H1.
  destruct (Z_lt_le_dec c 10) as [Hlt10 | Hge10].
  - (* one digit: 0.0d *)
    rewrite (Z.div_small c 100), (Z.div_small c 10), (Z.mod_small c 10),
      (Z.mod_small 0 10) by lia.
    pose proof (pretty_Z_digit c ltac:(lia)) as Hlen.
    unfold dec_str. cbn [coef exp]. rewrite Z.abs_eq, Hlen by exact Hc.
    destruct (Z.ltb_spec c 0) as [Hneg | _]; [lia |].
    transitivity ("0.0" +:+ (pretty c +:+ "")); [reflexivity |].
    rewrite string_app_nil_r. reflexivity.
  - destruct (Z_lt_le_dec c 100) as [Hlt100 | Hge100].
    + (* two digits: 0.dd *)
      rewrite (Z.div_small c 100) by lia.
      pose proof (pretty_Z_last c Hge10) as Hpretty.
      assert (0 <= c `div` 10 < 10) as Hq.
      { split; [apply Z.div_pos; lia | apply Z.div_lt_upper_bound; lia]. }
      rewrite <- (Z.mod_small (c `div` 10) 10) in Hpretty at 1 by exact Hq.
      unfold dec_str. cbn [coef exp].
      rewrite Z.abs_eq, Hpretty, string_length_app, H0, H1 by exact Hc.
      destruct (Z.ltb_spec c 0) as [Hneg | _]; [lia |].
      transitivity
        ("0." +:+ ((pretty ((c `div` 10) `mod` 10) +:+ pretty (c `mod` 10))
                   +:+ "")); [reflexivity |].
      rewrite string_app_nil_r. reflexivity.
    + (* digits before the point *)
      apply dec_str_point.
      * exact Hc.
      * rewrite (pretty_Z_last c Hge10).
        rewrite (pretty_Z_last (c `div` 10))
          by (apply Z.div_le_lower_bound; lia).
        rewrite Z.div_div by lia. apply string_app_assoc.
      * rewrite string_length_app, H0, H1. reflexivity.
      * apply pretty_Z_nonempty. apply Z.div_pos; lia.
Qed.

(** The string of a song whose price has two decimal places and is not
    negative: the title, [" - $"], the whole units, a point, the two digits
    of the cents.  No such price is printed with an exponent. *)
Theorem song_str_two_places (self : Song.t) (c : Z) :
  Song.price self = Dec c (-2) -> 0 <= c ->
  Song__str__ self =
    Song.title self +:+ " - $" +:+ pretty (c `div` 100) +:+ "."
      +:+ pretty ((c `div` 10) `mod` 10) +:+ pretty (c `mod` 10).
Proof.
  intros Hprice Hc. unfold Song__str__. rewrite Hprice, dec_str_cents by exact Hc.
  reflexivity.
Qed.

Lemma song_str_two_places_witness :
  Song.price (mk_song 1 "Test Song 1" 180 499) = Dec 499 (-2) /\ 0 <= 499 /\
  Song__str__ (mk_song 1 "Test Song 1" 180 499) =
    "Test Song 1" +:+ " - $" +:+ pretty (499 `div` 100) +:+ "."
      +:+ pretty ((499 `div` 10) `mod` 10) +:+ pretty (499 `mod` 10).
Proof.
  split; [reflexivity |]. split; [lia |].
  apply (song_str_two_places (mk_song 1 "Test Song 1" 180 499) 499);
    [reflexivity | lia].
Defined.
